(** * Wallet message codecs of tongo (wallet/messages.go)

    A shallow embedding of the payload codecs, the action-chain decoder, the
    signature verifiers and the raw-message dispatch of [wallet/messages.go],
    over a functional model of the cell primitive [boc.Cell]. *)

From Stdlib Require Import ZArith List Bool Lia Arith Sorted.
Import ListNotations.
Open Scope Z_scope.

(** ** Errors and results *)

Inductive error : Type :=
| ErrNotEnoughBits            (* boc: reading past the written bits *)
| ErrNotEnoughRefs            (* boc: no reference left to traverse *)
| ErrBitStringOverflow        (* boc: writing past the bit capacity *)
| ErrCellRefsOverflow         (* boc: attaching a fifth reference *)
| ErrPayloadV1toV4Capacity    (* "WalletPayloadV1toV4 supports only up to 4 messages" *)
| ErrPayloadHighloadCapacity  (* "PayloadHighload supports only up to 254 messages" *)
| ErrFailedToReadMsgMode (e : error) (* "failed to read msg mode: %v" *)
| ErrFailedToReadMsg (e : error)     (* "failed to read msg: %v" *)
| ErrUnexpectedBits (n : nat) (* "unexpected bits available: %v" *)
| ErrNotEnoughBitsInCell      (* "not enough bits in the cell" *)
| ErrVersionNotSupported      (* "wallet version is not supported: %v" *)
| ErrBadSignature             (* "failed to verify msg signature" *)
| ErrInvalidMagic             (* tlb: a magic tag that does not match *)
| ErrInvalidDictionary        (* tlb: a malformed dictionary cell *)
| ErrExternal (code : Z).     (* an error of an external collaborator *)

Inductive result (A : Type) : Type :=
| Ok (a : A)
| Err (e : error).
Arguments Ok {A} a.
Arguments Err {A} e.

(** ** The cell primitive *)

(** Modelled from the spec: the cell-tree primitive [boc.Cell], defined in
    package [boc], outside [wallet/messages.go].  A cell is a bounded bit
    sequence with a read cursor and an ordered bounded list of child
    references with a traversal cursor.  A child is held by value: the value
    stands for the reference. *)
#[local] Unset Elimination Schemes.
Inductive Cell : Type :=
| mkCell (bits : list bool) (rCursor : nat) (refs : list Cell) (refCursor : nat).
#[local] Set Elimination Schemes.

Definition bits (c : Cell) : list bool := let (b, _, _, _) := c in b.
Definition rCursor (c : Cell) : nat := let (_, n, _, _) := c in n.
Definition refs (c : Cell) : list Cell := let (_, _, r, _) := c in r.
Definition refCursor (c : Cell) : nat := let (_, _, _, n) := c in n.

Definition CellBits : nat := 1023.
Definition CellRefs : nat := 4.

Definition NewCell : Cell := mkCell [] 0 [] 0.

(** A computation on a cell: what Go does through the [*boc.Cell] receiver.
    The cell comes back as the call left it, also when the call fails. *)
Definition M (A : Type) : Type := Cell -> result A * Cell.

Definition ret {A} (a : A) : M A := fun c => (Ok a, c).
Definition fail {A} (e : error) : M A := fun c => (Err e, c).
Definition bind {A B} (m : M A) (k : A -> M B) : M B :=
  fun c => match m c with
           | (Ok a, c') => k a c'
           | (Err e, c') => (Err e, c')
           end.

Notation "x <- m ;; k" := (bind m (fun x => k))
  (at level 61, m at next level, right associativity).
Notation "m ;;; k" := (bind m (fun _ => k))
  (at level 61, right associativity).

(** Modelled from the spec: the methods of [boc.Cell] used by the codecs.
    Bits are written and read most significant first; a read past the written
    bits, a write past [CellBits] bits, a fifth reference and a traversal past
    the last reference are errors that leave the cell as it was. *)

(** Bits of [val], most significant first, [bitLen] of them. *)
Fixpoint bits_of_uint (val : Z) (bitLen : nat) : list bool :=
  match bitLen with
  | O => []
  | S n => Z.testbit val (Z.of_nat n) :: bits_of_uint val n
  end.

Definition uint_of_bits (bs : list bool) : Z :=
  fold_left (fun acc b => 2 * acc + Z.b2z b) bs 0.

Definition BitsAvailableForRead (c : Cell) : nat :=
  length (bits c) - rCursor c.

Definition RefsSize (c : Cell) : nat := length (refs c).

Definition ReadBits (n : nat) : M (list bool) :=
  fun c =>
    if (BitsAvailableForRead c <? n)%nat then (Err ErrNotEnoughBits, c)
    else (Ok (firstn n (skipn (rCursor c) (bits c))),
          mkCell (bits c) (rCursor c + n) (refs c) (refCursor c)).

Definition ReadUint (bitLen : nat) : M Z :=
  bs <- ReadBits bitLen ;; ret (uint_of_bits bs).

Definition ReadBit : M bool :=
  bs <- ReadBits 1 ;; ret (hd false bs).

Definition WriteBitString (bs : list bool) : M unit :=
  fun c =>
    if (CellBits <? length (bits c) + length bs)%nat
    then (Err ErrBitStringOverflow, c)
    else (Ok tt, mkCell (bits c ++ bs) (rCursor c) (refs c) (refCursor c)).

Definition WriteUint (val : Z) (bitLen : nat) : M unit :=
  WriteBitString (bits_of_uint val bitLen).

Definition WriteBit (b : bool) : M unit := WriteBitString [b].

Definition AddRef (r : Cell) : M unit :=
  fun c =>
    if (CellRefs <=? length (refs c))%nat then (Err ErrCellRefsOverflow, c)
    else (Ok tt, mkCell (bits c) (rCursor c) (refs c ++ [r]) (refCursor c)).

Definition NextRef : M Cell :=
  fun c =>
    match nth_error (refs c) (refCursor c) with
    | Some r => (Ok r, mkCell (bits c) (rCursor c) (refs c) (S (refCursor c)))
    | None => (Err ErrNotEnoughRefs, c)
    end.

(** ** Raw messages and the fixed-slot payload *)

Record RawMessage : Type := mkRawMessage {
  Message : Cell;
  Mode : Z   (* byte *)
}.

Definition PayloadV1toV4 : Type := list RawMessage.
Definition PayloadHighload : Type := list RawMessage.

(** [byte(x)]: the conversion of a [uint64] to a byte. *)
Definition byte_of (x : Z) : Z := x mod 256.

(** The body of [for _, msg := range p] in [PayloadV1toV4.MarshalTLB]. *)
Fixpoint marshalV1toV4_loop (p : list RawMessage) : M unit :=
  match p with
  | [] => ret tt
  | msg :: rest =>
      WriteUint (Mode msg) 8 ;;;
      AddRef (Message msg) ;;;
      marshalV1toV4_loop rest
  end.

Definition PayloadV1toV4_MarshalTLB (p : PayloadV1toV4) : M unit :=
  if (4 <? length p)%nat then fail ErrPayloadV1toV4Capacity
  else marshalV1toV4_loop p.

(** The [for] loop of [PayloadV1toV4.UnmarshalTLB]; [None] is a loop that
    has not returned within [fuel] turns. *)
Fixpoint unmarshalV1toV4_loop (fuel : nat) (p : list RawMessage) (c : Cell)
  : option (result (list RawMessage) * Cell) :=
  match fuel with
  | O => None
  | S fuel' =>
      match NextRef c with
      | (Err _, c1) => Some (Ok p, c1)            (* break; return nil *)
      | (Ok ref, c1) =>
          match ReadUint 8 c1 with
          | (Err e, c2) => Some (Err e, c2)
          | (Ok mode, c2) =>
              unmarshalV1toV4_loop fuel'
                (p ++ [mkRawMessage ref (byte_of mode)]) c2
          end
      end
  end.

(** [p.UnmarshalTLB(c, decoder)] appends to [*p].  Every turn of the loop
    consumes a reference, so the references not yet traversed bound the
    turns. *)
Definition PayloadV1toV4_UnmarshalTLB (p : PayloadV1toV4) (c : Cell)
  : option (result PayloadV1toV4 * Cell) :=
  unmarshalV1toV4_loop (S (length (refs c) - refCursor c)) p c.

(** ** The action chain *)

Record SendMessageAction : Type := mkSendMessageAction {
  ActionMode : Z;       (* Mode uint8 *)
  ActionMsg : Cell      (* Msg *boc.Cell `tlb:"^"` *)
}.

Definition SendMessageActionMagic : Z := 0x0ec3c86d.

(** Modelled from the spec: the reflective decoder [decoder.Unmarshal] at the
    struct [SendMessageAction], defined in package [tlb].  The
    fields are read in declaration order: the 32-bit magic, which must be
    [#0ec3c86d]; the 8-bit mode; the message as the next reference. *)
Definition unmarshalSendMessageAction : M SendMessageAction :=
  magic <- ReadUint 32 ;;
  if magic =? SendMessageActionMagic then
    mode <- ReadUint 8 ;;
    msg <- NextRef ;;
    ret (mkSendMessageAction mode msg)
  else fail ErrInvalidMagic.

(** The [for] loop of [SendMessageList.UnmarshalTLB]; [None] is a loop that
    has not returned within [fuel] turns. *)
Fixpoint unmarshalActions_loop (fuel : nat) (c : Cell)
    (actions : list SendMessageAction)
  : option (result (list SendMessageAction)) :=
  match fuel with
  | O => None
  | S fuel' =>
      let avail := BitsAvailableForRead c in
      if (avail =? 0)%nat then Some (Ok actions)
      else if (avail =? 40)%nat then
        match NextRef c with
        | (Err e, _) => Some (Err e)
        | (Ok next, c1) =>
            match unmarshalSendMessageAction c1 with
            | (Err e, _) => Some (Err e)
            | (Ok action, _) =>
                unmarshalActions_loop fuel' next (actions ++ [action])
            end
        end
      else Some (Err (ErrUnexpectedBits avail))
  end.

(** Height of the cell tree under [c]. *)
Fixpoint depth (c : Cell) : nat :=
  match c with
  | mkCell _ _ rs _ =>
      S ((fix depths (l : list Cell) : nat :=
            match l with
            | [] => O
            | r :: t => Nat.max (depth r) (depths t)
            end) rs)
  end.

(** The loop entered at cell [c] with [actions] decoded so far.  Every turn
    that does not return moves to a child of the current cell, so the height
    of the tree bounds the turns. *)
Definition unmarshalActions_from (actions : list SendMessageAction) (c : Cell)
  : option (result (list SendMessageAction)) :=
  unmarshalActions_loop (depth c) c actions.

Definition SendMessageList_UnmarshalTLB (c : Cell)
  : option (result (list SendMessageAction)) :=
  unmarshalActions_from [] c.

(** The bits the fixed-slot codec writes for a list. *)
Definition modeBits (p : list RawMessage) : list bool :=
  concat (map (fun m => bits_of_uint (Mode m) 8) p).

(** ** The dictionary of the high-volume payload *)

(** Modelled from the spec: the dictionary [tlb.Hashmap] / [tlb.HashmapE] and
    its cell coding, defined in package [tlb]: a mapping from
    fixed-width keys to cell values, serialized as a binary trie of cells.
    An edge carries the key bits shared by everything below it; a fork has
    the subtrie of the keys continuing with bit 0 as first reference and the
    one of the keys continuing with bit 1 as second reference; a leaf holds
    the value in the rest of its cell. *)
Inductive Hashmap : Type :=
| HmLeaf (label : list bool) (value : Cell)
| HmFork (label : list bool) (left right : Hashmap).

(** Width of the length field of a label of at most [n] bits. *)
Definition lenBits (n : nat) : nat := Z.to_nat (Z.log2_up (Z.of_nat n + 1)).

Definition allSame (l : list bool) : bool :=
  match l with
  | [] => false
  | b :: t => forallb (Bool.eqb b) t
  end.

(** Modelled from the spec: the three codings of an edge label (unary length,
    binary length, one repeated bit); the shortest one is written. *)
Definition encodeLabel (n : nat) (l : list bool) : list bool :=
  let k := lenBits n in
  let len := length l in
  if allSame l && (3 + k <? Nat.min (2 + 2 * len) (2 + k + len))%nat then
    true :: true :: hd false l :: bits_of_uint (Z.of_nat len) k
  else if (2 + 2 * len <=? 2 + k + len)%nat then
    false :: repeat true len ++ false :: l
  else
    true :: false :: bits_of_uint (Z.of_nat len) k ++ l.

(** A length in unary: ones closed by a zero. *)
Fixpoint readUnary (fuel : nat) : M nat :=
  match fuel with
  | O => fail ErrInvalidDictionary
  | S fuel' =>
      b <- ReadBit ;;
      if b then (k <- readUnary fuel' ;; ret (S k)) else ret O
  end.

(** Modelled from the spec: the reader of an edge label of at most [n] bits,
    in any of its three codings. *)
Definition decodeLabel (n : nat) : M (list bool) :=
  b <- ReadBit ;;
  if negb b then
    len <- readUnary (S n) ;;
    if (n <? len)%nat then fail ErrInvalidDictionary else ReadBits len
  else
    b2 <- ReadBit ;;
    if negb b2 then
      len <- ReadUint (lenBits n) ;;
      if Z.of_nat n <? len then fail ErrInvalidDictionary
      else ReadBits (Z.to_nat len)
    else
      v <- ReadBit ;;
      len <- ReadUint (lenBits n) ;;
      if Z.of_nat n <? len then fail ErrInvalidDictionary
      else ret (repeat v (Z.to_nat len)).

(** Modelled from the spec: [tlb.Any], the rest of a cell, bits and
    references, as a cell of its own. *)
Definition readAny : M Cell :=
  fun c =>
    (Ok (mkCell (skipn (rCursor c) (bits c)) 0
                (skipn (refCursor c) (refs c)) 0),
     mkCell (bits c) (Nat.max (rCursor c) (length (bits c)))
            (refs c) (Nat.max (refCursor c) (length (refs c)))).

Fixpoint addRefs (rs : list Cell) : M unit :=
  match rs with
  | [] => ret tt
  | r :: t => AddRef r ;;; addRefs t
  end.

Definition writeAny (v : Cell) : M unit :=
  WriteBitString (skipn (rCursor v) (bits v)) ;;;
  addRefs (skipn (refCursor v) (refs v)).

Definition KV : Type := (list bool * Cell)%type.

(** The entries whose key starts with bit [b], without that bit. *)
Definition branch (b : bool) (kvs : list KV) : list KV :=
  map (fun kv => (tl (fst kv), snd kv))
      (filter (fun kv => Bool.eqb (hd false (fst kv)) b) kvs).

(** Modelled from the spec: the construction of the dictionary from its
    pairs.  The trie of a key-value list whose keys have [n] bits left, under an
    edge that already carries [label]: while the keys agree on their next
    bit the edge grows by it; where they part there is a fork.  No entry,
    or two entries with one key, give [None]. *)
Fixpoint buildMap (n : nat) (label : list bool) (kvs : list KV)
  : option Hashmap :=
  match n with
  | O =>
      match kvs with
      | [(_, v)] => Some (HmLeaf label v)
      | _ => None
      end
  | S n' =>
      match branch false kvs, branch true kvs with
      | [], [] => None
      | zeros, [] => buildMap n' (label ++ [false]) zeros
      | [], ones => buildMap n' (label ++ [true]) ones
      | zeros, ones =>
          match buildMap n' [] zeros, buildMap n' [] ones with
          | Some a, Some b => Some (HmFork label a b)
          | _, _ => None
          end
      end
  end.

(** Modelled from the spec: the coding of a trie whose keys have [n] bits
    left, written into the receiving cell; the two sides of a fork go into
    cells of their own. *)
Fixpoint marshalHashmap (n : nat) (t : Hashmap) : M unit :=
  match t with
  | HmLeaf l v =>
      WriteBitString (encodeLabel n l) ;;; writeAny v
  | HmFork l a b =>
      let m := (n - length l - 1)%nat in
      fun c =>
        match marshalHashmap m a NewCell with
        | (Err e, _) => (Err e, c)
        | (Ok _, ca) =>
            match marshalHashmap m b NewCell with
            | (Err e, _) => (Err e, c)
            | (Ok _, cb) =>
                (WriteBitString (encodeLabel n l) ;;;
                 AddRef ca ;;; AddRef cb) c
            end
        end
  end.

(** Modelled from the spec: the decoding of a trie whose keys have [n] bits
    left from cell [c]: the label of the edge, then the value when the key is
    complete, or else the two sides of the fork from the next two references.
    Every fork uses up a key bit, so [n + 1] turns are enough. *)
Fixpoint unmarshalHashmap (fuel n : nat) (c : Cell) : result Hashmap :=
  match fuel with
  | O => Err ErrInvalidDictionary
  | S fuel' =>
      match decodeLabel n c with
      | (Err e, _) => Err e
      | (Ok l, c1) =>
          let m := (n - length l)%nat in
          if (m =? 0)%nat then
            match readAny c1 with
            | (Ok v, _) => Ok (HmLeaf l v)
            | (Err e, _) => Err e
            end
          else
            match NextRef c1 with
            | (Err e, _) => Err e
            | (Ok ca, c2) =>
                match NextRef c2 with
                | (Err e, _) => Err e
                | (Ok cb, _) =>
                    match unmarshalHashmap fuel' (m - 1) ca with
                    | Err e => Err e
                    | Ok a =>
                        match unmarshalHashmap fuel' (m - 1) cb with
                        | Err e => Err e
                        | Ok b => Ok (HmFork l a b)
                        end
                    end
                end
            end
      end
  end.

(** Modelled from the spec: the key-value pairs under a trie, the side of
    bit 0 first, which is the order of ascending keys. *)
Fixpoint itemsFrom (prefix : list bool) (t : Hashmap) : list KV :=
  match t with
  | HmLeaf l v => [(prefix ++ l, v)]
  | HmFork l a b =>
      itemsFrom (prefix ++ l ++ [false]) a ++
      itemsFrom (prefix ++ l ++ [true]) b
  end.

(** Keys of the payload dictionary: [tlb.Uint16], 16 bits. *)
Definition KeySize : nat := 16.
Definition Uint16 (i : Z) : Z := i mod 2 ^ 16.

Record HashmapItem : Type := mkHashmapItem {
  Key : Z;
  Value : Cell
}.

(** [tlb.NewHashmap(keys, values)]: the pairs, in the order given. *)
Definition NewHashmap (keys : list Z) (values : list Cell) : list HashmapItem :=
  map (fun kv => mkHashmapItem (fst kv) (snd kv)) (combine keys values).

(** Modelled from the spec: [tlb.Marshal(dict, hashmap)], defined in package
    [tlb]: the trie of the pairs, written into [dict].  The empty mapping
    writes nothing. *)
Definition marshalDict (h : list HashmapItem) : M unit :=
  match h with
  | [] => ret tt
  | _ =>
      match buildMap KeySize []
              (map (fun it => (bits_of_uint (Key it) KeySize, Value it)) h) with
      | None => fail ErrInvalidDictionary
      | Some t => marshalHashmap KeySize t
      end
  end.

(** Modelled from the spec: [decoder.Unmarshal] at [tlb.HashmapE], defined in
    package [tlb]: one marker bit, which must be true, then one reference to
    the dictionary cell, which is read as a trie. *)
Definition unmarshalDict : M (option Hashmap) :=
  marker <- ReadBit ;;
  if marker then
    dict <- NextRef ;;
    match unmarshalHashmap (S KeySize) KeySize dict with
    | Ok t => ret (Some t)
    | Err e => fail e
    end
  else fail ErrInvalidDictionary.

(** [m.Items()]: the entries in the order of the trie. *)
Definition Items (m : option Hashmap) : list HashmapItem :=
  match m with
  | None => []
  | Some t =>
      map (fun kv => mkHashmapItem (uint_of_bits (fst kv)) (snd kv))
          (itemsFrom [] t)
  end.

(** ** The high-volume payload *)

(** The [for i, msg := range p] loop of [PayloadHighload.MarshalTLB]. *)
Fixpoint highloadEntries (i : nat) (p : list RawMessage)
    (keys : list Z) (values : list Cell) : result (list Z * list Cell) :=
  match p with
  | [] => Ok (keys, values)
  | msg :: rest =>
      match (WriteUint (Mode msg) 8 ;;; AddRef (Message msg)) NewCell with
      | (Err e, _) => Err e
      | (Ok _, cell) =>
          highloadEntries (S i) rest
            (keys ++ [Uint16 (Z.of_nat i)]) (values ++ [cell])
      end
  end.

Definition PayloadHighload_MarshalTLB (p : PayloadHighload) : M unit :=
  if (254 <? length p)%nat then fail ErrPayloadHighloadCapacity
  else
    match highloadEntries 0 p [] [] with
    | Err e => fail e
    | Ok (keys, values) =>
        let hashmap := NewHashmap keys values in
        match marshalDict hashmap NewCell with
        | (Err e, _) => fail e
        | (Ok _, dict) => WriteBit true ;;; AddRef dict
        end
    end.

(** The [for _, item := range m.Items()] loop of
    [PayloadHighload.UnmarshalTLB]. *)
Fixpoint highloadMessages (items : list HashmapItem)
    (rawMessages : list RawMessage) : result (list RawMessage) :=
  match items with
  | [] => Ok rawMessages
  | item :: rest =>
      match ReadUint 8 (Value item) with
      | (Err e, _) => Err (ErrFailedToReadMsgMode e)
      | (Ok mode, cell) =>
          match NextRef cell with
          | (Err e, _) => Err (ErrFailedToReadMsg e)
          | (Ok msg, _) =>
              highloadMessages rest
                (rawMessages ++ [mkRawMessage msg (byte_of mode)])
          end
      end
  end.

Definition PayloadHighload_UnmarshalTLB : M PayloadHighload :=
  m <- unmarshalDict ;;
  match highloadMessages (Items m) [] with
  | Ok rawMessages => ret rawMessages
  | Err e => fail e
  end.

(** ** Messages of the wallet generations *)

Record MessageV3 : Type := mkMessageV3 {
  V3_SubWalletId : Z;
  V3_ValidUntil : Z;
  V3_Seqno : Z;
  V3_RawMessages : PayloadV1toV4
}.

Record MessageV4 : Type := mkMessageV4 {
  V4_SubWalletId : Z;
  V4_ValidUntil : Z;
  V4_Seqno : Z;
  V4_Op : Z;
  V4_RawMessages : PayloadV1toV4
}.

Record MessageV5Body : Type := mkMessageV5Body {
  V5_SubWalletId : list bool;   (* tlb.Bits80 *)
  V5_ValidUntil : Z;
  V5_Seqno : Z;
  V5_Op : bool;
  V5_Signature : list bool;     (* tlb.Bits512 *)
  V5_Actions : list SendMessageAction
}.

Inductive MessageV5 : Type :=
| Sint (body : MessageV5Body)   (* `tlbSumType:"#73696e74"` *)
| Sign (body : MessageV5Body).  (* `tlbSumType:"#7369676e"` *)

Record HighloadV2Message : Type := mkHighloadV2Message {
  HL_SubWalletId : Z;
  HL_BoundedQueryID : Z;
  HL_RawMessages : PayloadHighload
}.

Record SignedMsgBody : Type := mkSignedMsgBody {
  SignedSign : list bool;       (* Sign tlb.Bits512 *)
  SignedMessage : Cell          (* Message tlb.Any *)
}.

(** A loop that has not returned within its turns, as seen by a caller. *)
Definition settled {A} (o : option (result A * Cell)) : M A :=
  fun c =>
    match o with
    | Some rc => rc
    | None => (Err (ErrExternal 0), c)
    end.

(** [int8(x)] of an 8-bit read. *)
Definition int8_of (x : Z) : Z := if 128 <=? x then x - 256 else x.

(** Modelled from the spec: the reflective decoder [tlb.Unmarshal] at the
    message structs, defined in package [tlb]: the fields are
    read in declaration order with their fixed widths. *)
Definition unmarshalMessageV3 : M MessageV3 :=
  sub <- ReadUint 32 ;;
  valid <- ReadUint 32 ;;
  seqno <- ReadUint 32 ;;
  raw <- (fun c => settled (PayloadV1toV4_UnmarshalTLB [] c) c) ;;
  ret (mkMessageV3 sub valid seqno raw).

Definition unmarshalMessageV4 : M MessageV4 :=
  sub <- ReadUint 32 ;;
  valid <- ReadUint 32 ;;
  seqno <- ReadUint 32 ;;
  op <- ReadUint 8 ;;
  raw <- (fun c => settled (PayloadV1toV4_UnmarshalTLB [] c) c) ;;
  ret (mkMessageV4 sub valid seqno (int8_of op) raw).

Definition unmarshalHighloadV2Message : M HighloadV2Message :=
  sub <- ReadUint 32 ;;
  query <- ReadUint 64 ;;
  raw <- PayloadHighload_UnmarshalTLB ;;
  ret (mkHighloadV2Message sub query raw).

Definition unmarshalMessageV5Body : M MessageV5Body :=
  sub <- ReadBits 80 ;;
  valid <- ReadUint 32 ;;
  seqno <- ReadUint 32 ;;
  op <- ReadBit ;;
  sig <- ReadBits 512 ;;
  head <- NextRef ;;
  match SendMessageList_UnmarshalTLB head with
  | Some (Ok actions) => ret (mkMessageV5Body sub valid seqno op sig actions)
  | Some (Err e) => fail e
  | None => fail (ErrExternal 0)
  end.

Definition unmarshalMessageV5 : M MessageV5 :=
  tag <- ReadUint 32 ;;
  if tag =? 0x73696e74 then (b <- unmarshalMessageV5Body ;; ret (Sint b))
  else if tag =? 0x7369676e then (b <- unmarshalMessageV5Body ;; ret (Sign b))
  else fail ErrInvalidMagic.

Definition unmarshalSignedMsgBody : M SignedMsgBody :=
  sign <- ReadBits 512 ;;
  message <- readAny ;;
  ret (mkSignedMsgBody sign message).

(** [tlb.Unmarshal(&cell, &v)] on a local cell: the cell is dropped. *)
Definition on {A} (c : Cell) (m : M A) : result A := fst (m c).

Definition lift {A} (r : result A) : M A := fun c => (r, c).

Definition decodeMessageV3 (body : SignedMsgBody) : result MessageV3 :=
  on (SignedMessage body) unmarshalMessageV3.

Definition decodeMessageV4 (body : SignedMsgBody) : result MessageV4 :=
  on (SignedMessage body) unmarshalMessageV4.

Definition decodeHighloadV2Message (body : SignedMsgBody)
  : result HighloadV2Message :=
  on (SignedMessage body) unmarshalHighloadV2Message.

Definition actionsOf (m : MessageV5) : list SendMessageAction :=
  match m with
  | Sint b => V5_Actions b
  | Sign b => V5_Actions b
  end.

Definition MessageV5_RawMessages (m : MessageV5) : list RawMessage :=
  map (fun action => mkRawMessage (ActionMsg action) (ActionMode action))
      (actionsOf m).

(** Modelled from the spec: the wallet generations [Version], declared in
    another file of package [wallet]: the six that the dispatch names, and
    any other value of the type. *)
Inductive Version : Type :=
| V3R1 | V3R2 | V4R1 | V4R2 | V5R1 | HighLoadV2R2
| OtherVersion (tag : Z).

(** ** External collaborators *)

(** What the file uses and does not define: the decoder of the message
    envelope [tlb.Message], which yields the body cell [m.Body.Value]; the
    content hash of a cell; the signature check [ed25519.Verify]. *)
Class Externals : Type := {
  unmarshalMessage : M Cell;
  Hash : Cell -> result (list bool);
  ed25519_Verify : list Z -> list bool -> list bool -> bool
}.

(** The calls a verification makes, in order. *)
Inductive Call : Type :=
| CallExtractSignedMsgBody
| CallSignedMsgBodyVerify
| CallMessageV5VerifySignature
| CallReadBits (n : nat)
| CallHash (c : Cell)
| CallEd25519Verify (hash signature : list bool).

Section Wallet.
Context `{Ext : Externals}.

Definition SignedMsgBody_Verify (body : SignedMsgBody) (publicKey : list Z)
  : result unit * list Call :=
  let msg := SignedMessage body in
  match Hash msg with
  | Err e => (Err e, [CallSignedMsgBodyVerify; CallHash msg])
  | Ok hash =>
      let calls := [CallSignedMsgBodyVerify; CallHash msg;
                    CallEd25519Verify hash (SignedSign body)] in
      if ed25519_Verify publicKey hash (SignedSign body)
      then (Ok tt, calls)
      else (Err ErrBadSignature, calls)
  end.

Definition extractSignedMsgBody : M SignedMsgBody :=
  bodyCell <- unmarshalMessage ;;
  lift (on bodyCell unmarshalSignedMsgBody).

Definition DecodeMessageV5 : M MessageV5 :=
  bodyCell <- unmarshalMessage ;;
  lift (on bodyCell unmarshalMessageV5).

Definition DecodeMessageV4 : M MessageV4 :=
  signedMsgBody <- extractSignedMsgBody ;;
  lift (decodeMessageV4 signedMsgBody).

Definition DecodeMessageV3 : M MessageV3 :=
  signedMsgBody <- extractSignedMsgBody ;;
  lift (decodeMessageV3 signedMsgBody).

Definition DecodeHighloadV2Message : M HighloadV2Message :=
  signedMsgBody <- extractSignedMsgBody ;;
  lift (decodeHighloadV2Message signedMsgBody).

Definition ExtractRawMessages (ver : Version) : M (list RawMessage) :=
  match ver with
  | V5R1 => v5 <- DecodeMessageV5 ;; ret (MessageV5_RawMessages v5)
  | V4R1 | V4R2 => v4 <- DecodeMessageV4 ;; ret (V4_RawMessages v4)
  | V3R1 | V3R2 => v3 <- DecodeMessageV3 ;; ret (V3_RawMessages v3)
  | HighLoadV2R2 => hl <- DecodeHighloadV2Message ;; ret (HL_RawMessages hl)
  | _ => fail ErrVersionNotSupported
  end.

Definition VerifySignature (ver : Version) (publicKey : list Z) (msg : Cell)
  : (result unit * Cell) * list Call :=
  match ver with
  | V3R1 | V3R2 | V4R1 | V4R2 | HighLoadV2R2 =>
      match extractSignedMsgBody msg with
      | (Err e, msg') => ((Err e, msg'), [CallExtractSignedMsgBody])
      | (Ok signedMsgBody, msg') =>
          let (r, calls) := SignedMsgBody_Verify signedMsgBody publicKey in
          ((r, msg'), CallExtractSignedMsgBody :: calls)
      end
  | _ => ((Err ErrVersionNotSupported, msg), [])
  end.

(** The loop [for i := 0; i < msgBody.RefsSize(); i++] of
    [MessageV5VerifySignature], [n] turns from [msgBody] to [msgCopy]. *)
Fixpoint copyRefs (n : nat) (msgBody msgCopy : Cell)
  : result Cell * Cell :=
  match n with
  | O => (Ok msgCopy, msgBody)
  | S n' =>
      match NextRef msgBody with
      | (Err e, msgBody') => (Err e, msgBody')
      | (Ok ref, msgBody') =>
          match AddRef ref msgCopy with
          | (Err e, _) => (Err e, msgBody')
          | (Ok _, msgCopy') => copyRefs n' msgBody' msgCopy'
          end
      end
  end.

Definition MessageV5VerifySignature (msgBody : Cell) (publicKey : list Z)
  : (result unit * Cell) * list Call :=
  let enter := [CallMessageV5VerifySignature] in
  let totalBits := BitsAvailableForRead msgBody in
  if (totalBits <? 512)%nat
  then ((Err ErrNotEnoughBitsInCell, msgBody), enter)
  else
    match ReadBits (totalBits - 512) msgBody with
    | (Err e, c1) => ((Err e, c1), enter ++ [CallReadBits (totalBits - 512)])
    | (Ok bs, c1) =>
        let reads := [CallReadBits (totalBits - 512); CallReadBits 512] in
        match ReadBits 512 c1 with               (* ReadBytes(64) *)
        | (Err e, c2) => ((Err e, c2), enter ++ reads)
        | (Ok signature, c2) =>
            match WriteBitString bs NewCell with
            | (Err e, _) => ((Err e, c2), enter ++ reads)
            | (Ok _, msgCopy) =>
                match copyRefs (RefsSize c2) c2 msgCopy with
                | (Err e, c3) => ((Err e, c3), enter ++ reads)
                | (Ok msgCopy', c3) =>
                    match Hash msgCopy' with
                    | Err e =>
                        ((Err e, c3), enter ++ reads ++ [CallHash msgCopy'])
                    | Ok hash =>
                        let calls :=
                          enter ++ reads ++
                          [CallHash msgCopy';
                           CallEd25519Verify hash signature] in
                        if ed25519_Verify publicKey hash signature
                        then ((Ok tt, c3), calls)
                        else ((Err ErrBadSignature, c3), calls)
                    end
                end
            end
        end
    end.

End Wallet.

(** ** Views of a cell under decoding *)

(** The bits not yet read. *)
Definition unread (c : Cell) : list bool := skipn (rCursor c) (bits c).

(** [c] after [n] more bits were read. *)
Definition advance (n : nat) (c : Cell) : Cell :=
  mkCell (bits c) (rCursor c + n) (refs c) (refCursor c).

(** A trie that [marshalHashmap] can write for keys of [n] bits: the labels
    add up to [n] on every path, and a leaf has room for its value, which is
    a cell that has not been read from. *)
Fixpoint wfTrie (n : nat) (t : Hashmap) : Prop :=
  match t with
  | HmLeaf l v =>
      length l = n /\ rCursor v = O /\ refCursor v = O /\
      (2 + 2 * n + length (bits v) <= CellBits)%nat /\
      (length (refs v) <= CellRefs)%nat
  | HmFork l a b =>
      (length l < n)%nat /\ (2 + 2 * n <= CellBits)%nat /\
      wfTrie (n - length l - 1) a /\ wfTrie (n - length l - 1) b
  end.

(** A value cell that a leaf of a trie with [n]-bit keys has room for. *)
Definition fits (n : nat) (v : Cell) : Prop :=
  rCursor v = O /\ refCursor v = O /\
  (2 + 2 * n + length (bits v) <= CellBits)%nat /\
  (length (refs v) <= CellRefs)%nat.

(** An entry with one more leading key bit. *)
Definition consKey (b : bool) (kv : KV) : KV := (b :: fst kv, snd kv).

(** The value cell of a dictionary entry, as [PayloadHighload.MarshalTLB]
    packs it. *)
Definition valueCell (mode : Z) (dest : Cell) : Cell :=
  mkCell (bits_of_uint mode 8) 0 [dest] 0.

(** The dictionary entries [PayloadHighload.MarshalTLB] makes of a list
    whose first message has index [i]: the index as key, the packed value. *)
Fixpoint entriesOf (i : nat) (p : list RawMessage) : list (Z * Cell) :=
  match p with
  | [] => []
  | msg :: rest =>
      (Uint16 (Z.of_nat i), valueCell (Mode msg) (Message msg))
      :: entriesOf (S i) rest
  end.

(** A dictionary entry with its key as bits. *)
Definition keyBits (kv : Z * Cell) : KV :=
  (bits_of_uint (fst kv) KeySize, snd kv).

(** ** Order of keys *)

(** Lexicographic order of bit strings, most significant bit first. *)
Fixpoint lexlt (a b : list bool) : Prop :=
  match a, b with
  | x :: a', y :: b' => (x = false /\ y = true) \/ (x = y /\ lexlt a' b')
  | _, _ => False
  end.

Definition keyLt (x y : KV) : Prop := lexlt (fst x) (fst y).

(** ** Cells used in examples *)

(** A chain node: the action tag, a mode, the next node and a destination. *)
Definition chainNode (mode : Z) (next dest : Cell) : Cell :=
  mkCell (bits_of_uint SendMessageActionMagic 32 ++ bits_of_uint mode 8) 0
         [next; dest] 0.

Definition destA : Cell := mkCell [true] 0 [] 0.
Definition destB : Cell := mkCell [false; true] 0 [] 0.
Definition destC : Cell := mkCell [true; true; false] 0 [] 0.

Definition chain3 : Cell :=
  chainNode 1 (chainNode 2 (chainNode 3 NewCell destC) destB) destA.

(** The same chain with one more bit in its second node. *)
Definition chain3_41 : Cell :=
  chainNode 1
    (mkCell (bits_of_uint SendMessageActionMagic 32 ++ bits_of_uint 2 8
             ++ [false]) 0
            [chainNode 3 NewCell destC; destB] 0)
    destA.

(** Stand-ins for the external collaborators, used in examples: the message
    body is the rest of the message cell, the hash of a cell is its first 256
    bits (padded), and a signature is valid when it starts with the hash. *)
Definition exampleExternals : Externals := {|
  unmarshalMessage := readAny;
  Hash := fun c => Ok (firstn 256 (bits c ++ repeat false 256));
  ed25519_Verify := fun _ hash signature =>
    forallb (fun xy => Bool.eqb (fst xy) (snd xy)) (combine hash signature)
|}.

(** The wallet generations routed to the whole-body verification. *)
Definition wholeBodyVersions : list Version :=
  [V3R1; V3R2; V4R1; V4R2; HighLoadV2R2].

(** The wallet generations the raw-message dispatch names. *)
Definition supportedVersions : list Version :=
  [V3R1; V3R2; V4R1; V4R2; V5R1; HighLoadV2R2].

(** A dictionary payload whose keys are 5, 9 and 300. *)
Definition gapDict : Cell :=
  snd (marshalDict [mkHashmapItem 5 (valueCell 1 destA);
                    mkHashmapItem 9 (valueCell 2 destB);
                    mkHashmapItem 300 (valueCell 3 destC)] NewCell).

Definition gapPayload : Cell := mkCell [true] 0 [gapDict] 0.

(** An entry of the decoded list against the dictionary item it is read
    from: 8 bits of mode, then the next reference as destination. *)
Definition entryOf (item : HashmapItem) (raw : RawMessage) : Prop :=
  exists mode cell cell',
    ReadUint 8 (Value item) = (Ok mode, cell) /\
    NextRef cell = (Ok (Message raw), cell') /\
    Mode raw = byte_of mode.

(** ** Shapes of cells, for statements about whole decodes *)

(** The entries [PayloadV1toV4.UnmarshalTLB] reads from pending references
    [rs] and unread bits [bs]: a reference and the next 8 bits, in turn. *)
Fixpoint readEntries (rs : list Cell) (bs : list bool) : list RawMessage :=
  match rs with
  | [] => []
  | r :: rs' =>
      mkRawMessage r (byte_of (uint_of_bits (firstn 8 bs)))
      :: readEntries rs' (skipn 8 bs)
  end.

(** A chain of action nodes, one per (mode, destination) pair, that ends in
    the cell [tail]. *)
Definition chainOnto (l : list (Z * Cell)) (tail : Cell) : Cell :=
  fold_right (fun a next => chainNode (fst a) next (snd a)) tail l.

Definition actionOf (a : Z * Cell) : SendMessageAction :=
  mkSendMessageAction (fst a) (snd a).

(** The outcome of hashing the cell [hashed] and checking [signature]
    against that hash, as both verification schemes end. *)
Definition checked `{Ext : Externals} (pk : list Z) (hashed : Cell)
    (signature : list bool) : result unit :=
  match Hash hashed with
  | Err e => Err e
  | Ok hash =>
      if ed25519_Verify pk hash signature then Ok tt else Err ErrBadSignature
  end.

(** A dictionary payload whose second value cell has only two bits. *)
Definition badDict : Cell :=
  snd (marshalDict [mkHashmapItem 1 (valueCell 1 destA);
                    mkHashmapItem 2 (mkCell [true; true] 0 [destB] 0)]
         NewCell).

Definition badPayload : Cell := mkCell [true] 0 [badDict] 0.

(** The raw message of a (mode, destination) pair. *)
Definition rawOf (a : Z * Cell) : RawMessage := mkRawMessage (snd a) (fst a).

(** Dictionary items with keys of the caller's choice: one per
    (key, (mode, destination)), the value packed as [valueCell]. *)
Definition dictItems (l : list (Z * (Z * Cell))) : list HashmapItem :=
  map (fun e => mkHashmapItem (fst e) (valueCell (fst (snd e)) (snd (snd e))))
      l.

Definition itemBits (it : HashmapItem) : KV :=
  (bits_of_uint (Key it) KeySize, Value it).

(** ** The fixed-slot decoder with the list it leaves behind *)

(** The loop of [PayloadV1toV4.UnmarshalTLB] with all that the call leaves:
    the error or none, the list [*p], and the cell.  The loop appends to
    [*p] in every turn, so when a later turn fails the entries of the
    earlier turns are in [*p] beside the error. *)
Fixpoint unmarshalV1toV4_run (fuel : nat) (p : list RawMessage) (c : Cell)
  : option (option error * list RawMessage * Cell) :=
  match fuel with
  | O => None
  | S fuel' =>
      match NextRef c with
      | (Err _, c1) => Some (None, p, c1)            (* break; return nil *)
      | (Ok ref, c1) =>
          match ReadUint 8 c1 with
          | (Err e, c2) => Some (Some e, p, c2)      (* return err *)
          | (Ok mode, c2) =>
              unmarshalV1toV4_run fuel'
                (p ++ [mkRawMessage ref (byte_of mode)]) c2
          end
      end
  end.

Definition PayloadV1toV4_UnmarshalTLB_run (p : PayloadV1toV4) (c : Cell)
  : option (option error * PayloadV1toV4 * Cell) :=
  unmarshalV1toV4_run (S (length (refs c) - refCursor c)) p c.

(** What the caller of [UnmarshalTLB] gets as its result: the list when there
    is no error, the error otherwise. *)
Definition returned (o : option error * list RawMessage * Cell)
  : result (list RawMessage) * Cell :=
  match o with
  | (None, p, c) => (Ok p, c)
  | (Some e, _, c) => (Err e, c)
  end.

(** * Properties *)

(** ** Bits and unsigned integers *)

Lemma fold_uint_acc (bs : list bool) (acc : Z) :
  fold_left (fun a b => 2 * a + Z.b2z b) bs acc
  = acc * 2 ^ Z.of_nat (length bs) + uint_of_bits bs.
Proof.
  unfold uint_of_bits. revert acc.
  induction bs as [|b bs IH]; intros acc.
  - simpl. lia.
  - cbn [fold_left length]. rewrite IH, (IH (2 * 0 + Z.b2z b)).
    rewrite Nat2Z.inj_succ, Z.pow_succ_r by lia. ring.
Qed.

Lemma uint_of_bits_cons (b : bool) (bs : list bool) :
  uint_of_bits (b :: bs)
  = Z.b2z b * 2 ^ Z.of_nat (length bs) + uint_of_bits bs.
Proof.
  unfold uint_of_bits at 1. cbn [fold_left]. rewrite fold_uint_acc. ring.
Qed.

Lemma bits_of_uint_length (v : Z) (n : nat) : length (bits_of_uint v n) = n.
Proof. induction n; simpl; congruence. Qed.

Lemma uint_of_bits_range (bs : list bool) :
  0 <= uint_of_bits bs < 2 ^ Z.of_nat (length bs).
Proof.
  induction bs as [|b bs IH].
  - cbn. lia.
  - rewrite uint_of_bits_cons. cbn [length].
    rewrite Nat2Z.inj_succ, Z.pow_succ_r by lia.
    destruct b; cbn [Z.b2z]; lia.
Qed.

(** Writing [bitLen] bits of [v] and reading them back gives [v] modulo
    [2 ^ bitLen]. *)
Lemma uint_of_bits_of_uint (v : Z) (n : nat) :
  uint_of_bits (bits_of_uint v n) = v mod 2 ^ Z.of_nat n.
Proof.
  induction n as [|n IH].
  - cbn. now rewrite Z.mod_1_r.
  - cbn [bits_of_uint]. rewrite uint_of_bits_cons, bits_of_uint_length, IH.
    rewrite Nat2Z.inj_succ, Z.pow_succ_r by lia.
    rewrite (Z.mul_comm 2), Z.rem_mul_r by lia.
    rewrite Z.testbit_spec' by lia. ring.
Qed.

Lemma uint_of_bits_of_uint_small (v : Z) (n : nat) :
  0 <= v < 2 ^ Z.of_nat n -> uint_of_bits (bits_of_uint v n) = v.
Proof. intros H. rewrite uint_of_bits_of_uint. now apply Z.mod_small. Qed.

(** ** Reading what was written *)

Lemma ReadBits_at (pre bs post : list bool) (rs : list Cell) (k : nat) :
  ReadBits (length bs) (mkCell (pre ++ bs ++ post) (length pre) rs k)
  = (Ok bs, mkCell (pre ++ bs ++ post) (length pre + length bs) rs k).
Proof.
  unfold ReadBits, BitsAvailableForRead. cbn [bits rCursor refs refCursor].
  rewrite !length_app.
  destruct (Nat.ltb_spec (length pre + (length bs + length post) - length pre)
                         (length bs)) as [H|H]; [lia|].
  rewrite skipn_app, Nat.sub_diag, skipn_all. cbn [skipn app].
  rewrite firstn_app, Nat.sub_diag, firstn_all. cbn [firstn].
  now rewrite app_nil_r.
Qed.

Lemma ReadUint_at (v : Z) (n : nat) (pre post : list bool)
    (rs : list Cell) (k : nat) :
  ReadUint n (mkCell (pre ++ bits_of_uint v n ++ post) (length pre) rs k)
  = (Ok (v mod 2 ^ Z.of_nat n),
     mkCell (pre ++ bits_of_uint v n ++ post) (length pre + n) rs k).
Proof.
  unfold ReadUint, bind.
  pose proof (ReadBits_at pre (bits_of_uint v n) post rs k) as H.
  rewrite bits_of_uint_length in H. rewrite H.
  unfold ret. now rewrite uint_of_bits_of_uint.
Qed.

Lemma NextRef_at (bs : list bool) (r : nat) (pre post : list Cell) (x : Cell) :
  NextRef (mkCell bs r (pre ++ x :: post) (length pre))
  = (Ok x, mkCell bs r (pre ++ x :: post) (S (length pre))).
Proof.
  unfold NextRef. cbn [bits rCursor refs refCursor].
  rewrite nth_error_app2, Nat.sub_diag by lia. reflexivity.
Qed.

Lemma NextRef_end (bs : list bool) (r : nat) (rs : list Cell) (k : nat) :
  (length rs <= k)%nat ->
  NextRef (mkCell bs r rs k) = (Err ErrNotEnoughRefs, mkCell bs r rs k).
Proof.
  intros H. unfold NextRef. cbn [bits rCursor refs refCursor].
  apply nth_error_None in H. now rewrite H.
Qed.

(** ** The fixed-slot payload *)

Lemma marshalV1toV4_loop_ok (p : list RawMessage) :
  forall (bs : list bool) (r : nat) (rs : list Cell) (k : nat),
    (length bs + 8 * length p <= CellBits)%nat ->
    (length rs + length p <= CellRefs)%nat ->
    marshalV1toV4_loop p (mkCell bs r rs k)
    = (Ok tt, mkCell (bs ++ modeBits p) r (rs ++ map Message p) k).
Proof.
  induction p as [|m p IH]; intros bs r rs k Hb Hr.
  - cbn. now rewrite !app_nil_r.
  - cbn [marshalV1toV4_loop length] in *.
    unfold bind at 1. unfold WriteUint, WriteBitString.
    cbn [bits rCursor refs refCursor]. rewrite bits_of_uint_length.
    destruct (Nat.ltb_spec CellBits (length bs + 8)) as [H|H]; [lia|].
    unfold bind at 1. unfold AddRef. cbn [bits rCursor refs refCursor].
    destruct (Nat.leb_spec CellRefs (length rs)) as [H'|H']; [lia|].
    rewrite IH.
    + unfold modeBits. cbn [map concat]. now rewrite <- !app_assoc.
    + rewrite length_app, bits_of_uint_length. lia.
    + rewrite length_app. cbn [length]. lia.
Qed.

Lemma unmarshalV1toV4_loop_ok (p : list RawMessage) :
  forall (fuel : nat) (acc : list RawMessage)
         (pre : list bool) (rpre : list Cell),
    (length p < fuel)%nat ->
    exists c',
      unmarshalV1toV4_loop fuel acc
        (mkCell (pre ++ modeBits p) (length pre)
                (rpre ++ map Message p) (length rpre))
      = Some (Ok (acc ++ map (fun m => mkRawMessage (Message m)
                                         (byte_of (Mode m mod 2 ^ 8))) p),
              c').
Proof.
  induction p as [|m p IH]; intros fuel acc pre rpre Hf.
  - destruct fuel as [|fuel]; [cbn in Hf; lia|].
    cbn [unmarshalV1toV4_loop map modeBits concat].
    rewrite NextRef_end by (rewrite length_app; cbn; lia).
    rewrite !app_nil_r. eauto.
  - destruct fuel as [|fuel]; [cbn in Hf; lia|].
    cbn [unmarshalV1toV4_loop map]. rewrite NextRef_at.
    unfold modeBits. cbn [map concat]. fold (modeBits p).
    rewrite (ReadUint_at (Mode m) 8 pre (modeBits p)).
    specialize (IH fuel (acc ++ [mkRawMessage (Message m)
                                   (byte_of (Mode m mod 2 ^ Z.of_nat 8))])
                   (pre ++ bits_of_uint (Mode m) 8) (rpre ++ [Message m])).
    rewrite !length_app, bits_of_uint_length, <- !app_assoc in IH.
    cbn [length app] in IH. rewrite Nat.add_1_r in IH.
    destruct IH as [c' IH]; [cbn in Hf; lia|].
    exists c'. exact IH.
Qed.

Lemma byte_of_small (x : Z) : 0 <= x < 256 -> byte_of (x mod 2 ^ 8) = x.
Proof.
  intros H. unfold byte_of. change (2 ^ 8) with 256.
  now rewrite Z.mod_mod, Z.mod_small by lia.
Qed.

Lemma map_byte_id (p : list RawMessage) :
  Forall (fun m => 0 <= Mode m < 256) p ->
  map (fun m => mkRawMessage (Message m) (byte_of (Mode m mod 2 ^ 8))) p = p.
Proof.
  induction 1 as [|m p Hm _ IH]; [reflexivity|].
  cbn [map]. rewrite IH, byte_of_small by exact Hm. now destruct m.
Qed.

(** C1: a list of at most 4 (mode, destination) pairs, written into a fresh
    cell by [PayloadV1toV4.MarshalTLB] and read back by
    [PayloadV1toV4.UnmarshalTLB], comes back as the same list: same order,
    same mode bytes, same destination cells. *)
Theorem C1_simple_roundtrip (p : PayloadV1toV4) :
  (length p <= 4)%nat ->
  Forall (fun m => 0 <= Mode m < 256) p ->
  exists c c',
    PayloadV1toV4_MarshalTLB p NewCell = (Ok tt, c) /\
    PayloadV1toV4_UnmarshalTLB [] c = Some (Ok p, c').
Proof.
  intros Hlen Hmode.
  unfold PayloadV1toV4_MarshalTLB, NewCell.
  destruct (Nat.ltb_spec 4 (length p)) as [H|_]; [lia|].
  rewrite marshalV1toV4_loop_ok by (cbn; unfold CellBits, CellRefs; lia).
  cbn [app]. eexists. 
  destruct (unmarshalV1toV4_loop_ok p (S (length p)) [] [] []) as [c' Hc];
    [lia|].
  exists c'. split; [reflexivity|].
  unfold PayloadV1toV4_UnmarshalTLB. cbn [refs refCursor app length] in *.
  rewrite length_map, Nat.sub_0_r, Hc. cbn [app].
  now rewrite map_byte_id.
Qed.

Lemma C1_simple_roundtrip_witness :
  let p := [mkRawMessage (mkCell [true] 0 [] 0) 3; mkRawMessage NewCell 128] in
  exists c c',
    PayloadV1toV4_MarshalTLB p NewCell = (Ok tt, c) /\
    PayloadV1toV4_UnmarshalTLB [] c = Some (Ok p, c').
Proof.
  intros p. apply (C1_simple_roundtrip p).
  - cbn. lia.
  - repeat constructor; cbn; lia.
Defined.

(** The loop of [PayloadV1toV4.UnmarshalTLB] returns within the turns it is
    given: one more than the references not yet traversed. *)
Lemma unmarshalV1toV4_fuel (fuel : nat) :
  forall (p : list RawMessage) (c : Cell),
    (length (refs c) - refCursor c < fuel)%nat ->
    exists r, unmarshalV1toV4_loop fuel p c = Some r.
Proof.
  induction fuel as [|fuel IH]; intros p c Hf; [lia|].
  cbn [unmarshalV1toV4_loop]. unfold NextRef.
  destruct (nth_error (refs c) (refCursor c)) as [ref|] eqn:Hn; [|eauto].
  assert (refCursor c < length (refs c))%nat
    by (apply nth_error_Some; congruence).
  unfold ReadUint, bind, ReadBits.
  match goal with |- context [if ?b then _ else _] => destruct b end;
    [eauto|].
  unfold ret. apply IH. cbn [refs refCursor]. lia.
Qed.

(** C4: [PayloadV1toV4.MarshalTLB] refuses 5 or more entries and
    [PayloadHighload.MarshalTLB] refuses 255 or more, each with its capacity
    error and with the target cell as it was: nothing has been written. *)
Theorem C4_capacity (p : PayloadV1toV4) (q : PayloadHighload) (c : Cell) :
  (5 <= length p)%nat ->
  (255 <= length q)%nat ->
  PayloadV1toV4_MarshalTLB p c = (Err ErrPayloadV1toV4Capacity, c) /\
  PayloadHighload_MarshalTLB q c = (Err ErrPayloadHighloadCapacity, c).
Proof.
  intros Hp Hq.
  unfold PayloadV1toV4_MarshalTLB, PayloadHighload_MarshalTLB.
  destruct (Nat.ltb_spec 4 (length p)) as [_|H]; [|lia].
  destruct (Nat.ltb_spec 254 (length q)) as [_|H]; [|lia].
  split; reflexivity.
Qed.

Lemma C4_capacity_witness :
  let m := mkRawMessage NewCell 0 in
  let c := mkCell [true; false] 0 [NewCell] 0 in
  PayloadV1toV4_MarshalTLB (repeat m 5) c = (Err ErrPayloadV1toV4Capacity, c) /\
  PayloadHighload_MarshalTLB (repeat m 255) c
  = (Err ErrPayloadHighloadCapacity, c).
Proof.
  intros m c. apply (C4_capacity (repeat m 5) (repeat m 255) c).
  - rewrite repeat_length. lia.
  - rewrite repeat_length. lia.
Defined.

(** C5, as the claim states it, fails: a payload cell with one unread bit and
    no reference decodes without error, to the empty list. *)
Lemma C5_counterexample :
  ~ (forall c : Cell,
        (0 < BitsAvailableForRead c)%nat ->
        (length (refs c) <= refCursor c)%nat ->
        exists e c', PayloadV1toV4_UnmarshalTLB [] c = Some (Err e, c')).
Proof.
  intros H.
  destruct (H (mkCell [true] 0 [] 0)) as (e & c' & Hc).
  - cbn. lia.
  - cbn. lia.
  - cbn in Hc. discriminate.
Qed.

(** C5, amended: [PayloadV1toV4.UnmarshalTLB] fails with the not-enough-bits
    error on every payload cell that has a child reference left and fewer than
    8 unread bits; on a cell with no child reference left it succeeds and adds
    no entry, whatever bits are unread. *)
Theorem C5_fixed_slot_errors (p : PayloadV1toV4) (c : Cell) :
  ((refCursor c < length (refs c))%nat ->
   (BitsAvailableForRead c < 8)%nat ->
   exists c', PayloadV1toV4_UnmarshalTLB p c = Some (Err ErrNotEnoughBits, c'))
  /\
  ((length (refs c) <= refCursor c)%nat ->
   PayloadV1toV4_UnmarshalTLB p c = Some (Ok p, c)).
Proof.
  unfold PayloadV1toV4_UnmarshalTLB. cbn [unmarshalV1toV4_loop].
  unfold NextRef. split.
  - intros Hr Hb.
    destruct (nth_error (refs c) (refCursor c)) as [ref|] eqn:Hn.
    + unfold ReadUint, bind, ReadBits, BitsAvailableForRead in *.
      cbn [bits rCursor refs refCursor].
      destruct (Nat.ltb_spec (length (bits c) - rCursor c) 8) as [_|H];
        [eauto|lia].
    + apply nth_error_None in Hn. lia.
  - intros Hr. apply nth_error_None in Hr. now rewrite Hr.
Qed.

Lemma C5_fixed_slot_errors_witness :
  (exists c', PayloadV1toV4_UnmarshalTLB []
                (mkCell [true; true; true] 0 [NewCell] 0)
              = Some (Err ErrNotEnoughBits, c')) /\
  PayloadV1toV4_UnmarshalTLB [] (mkCell [true] 0 [] 0)
  = Some (Ok [], mkCell [true] 0 [] 0).
Proof.
  split.
  - apply (C5_fixed_slot_errors [] (mkCell [true; true; true] 0 [NewCell] 0));
      cbn; lia.
  - apply (C5_fixed_slot_errors [] (mkCell [true] 0 [] 0)). cbn. lia.
Defined.

(** ** The action chain *)

Lemma depth_ref (c x : Cell) : In x (refs c) -> (depth x < depth c)%nat.
Proof.
  destruct c as [bs r rs k]. cbn [refs depth].
  induction rs as [|y rs IH]; intros Hin; [destruct Hin|].
  destruct Hin as [->|Hin].
  - lia.
  - specialize (IH Hin). lia.
Qed.

Lemma NextRef_child (c next c1 : Cell) :
  NextRef c = (Ok next, c1) ->
  nth_error (refs c) (refCursor c) = Some next /\
  c1 = mkCell (bits c) (rCursor c) (refs c) (S (refCursor c)) /\
  (depth next < depth c)%nat.
Proof.
  unfold NextRef.
  destruct (nth_error (refs c) (refCursor c)) as [r|] eqn:Hn; [|discriminate].
  intros [= -> <-]. repeat split. apply depth_ref.
  eapply nth_error_In; eauto.
Qed.

(** More turns do not change a result. *)
Lemma unmarshalActions_loop_mono (fuel : nat) :
  forall c actions r,
    unmarshalActions_loop fuel c actions = Some r ->
    unmarshalActions_loop (S fuel) c actions = Some r.
Proof.
  induction fuel as [|fuel IH]; intros c actions r H; [discriminate|].
  remember (S fuel) as f eqn:Hf.
  cbn [unmarshalActions_loop]. rewrite Hf in H at 1.
  cbn [unmarshalActions_loop] in H.
  destruct (BitsAvailableForRead c =? 0)%nat; [exact H|].
  destruct (BitsAvailableForRead c =? 40)%nat; [|exact H].
  destruct (NextRef c) as [[next|e] c1]; [|exact H].
  destruct (unmarshalSendMessageAction c1) as [[action|e] c2]; [|exact H].
  subst f. now apply IH.
Qed.

(** The height of the tree is enough turns, and an action is decoded per
    level descended. *)
Lemma unmarshalActions_loop_enough (fuel : nat) :
  forall c actions,
    (depth c <= fuel)%nat ->
    exists r,
      unmarshalActions_loop fuel c actions = Some r /\
      forall l, r = Ok l -> (length l < length actions + depth c)%nat.
Proof.
  induction fuel as [|fuel IH]; intros c actions Hd.
  - destruct c; cbn in Hd; lia.
  - cbn [unmarshalActions_loop].
    assert (0 < depth c)%nat by (destruct c; cbn; lia).
    destruct (BitsAvailableForRead c =? 0)%nat.
    { eexists; split; [reflexivity|]. intros l [= <-]. lia. }
    destruct (BitsAvailableForRead c =? 40)%nat.
    2:{ eexists; split; [reflexivity|]. discriminate. }
    destruct (NextRef c) as [[next|e] c1] eqn:Hn.
    2:{ eexists; split; [reflexivity|]. discriminate. }
    apply NextRef_child in Hn. destruct Hn as (_ & _ & Hlt).
    destruct (unmarshalSendMessageAction c1) as [[action|e] c2].
    2:{ eexists; split; [reflexivity|]. discriminate. }
    destruct (IH next (actions ++ [action])) as (r & Hr & Hlen); [lia|].
    exists r. split; [exact Hr|].
    intros l Hl. specialize (Hlen l Hl).
    rewrite length_app in Hlen. cbn [length] in Hlen. lia.
Qed.

Lemma unmarshalActions_loop_le (fuel fuel' : nat) c actions r :
  (fuel <= fuel')%nat ->
  unmarshalActions_loop fuel c actions = Some r ->
  unmarshalActions_loop fuel' c actions = Some r.
Proof.
  induction 1 as [|f' _ IH]; intros H; [exact H|].
  apply unmarshalActions_loop_mono. now apply IH.
Qed.

(** With the turns the height allows, the turns given do not matter. *)
Lemma unmarshalActions_loop_from (fuel : nat) c actions :
  (depth c <= fuel)%nat ->
  unmarshalActions_loop fuel c actions = unmarshalActions_from actions c.
Proof.
  intros Hd. unfold unmarshalActions_from.
  destruct (unmarshalActions_loop_enough (depth c) c actions)
    as (r & Hr & _); [lia|].
  rewrite Hr. eapply unmarshalActions_loop_le; eauto.
Qed.

(** C10: [SendMessageList.UnmarshalTLB] returns on every cell tree: a turn of
    its loop returns or moves to a child of the current cell, so the height of
    the tree is enough turns, more turns give the same result, and the actions
    decoded are fewer than the height of the tree. *)
Theorem C10_action_chain_terminates (c : Cell) :
  exists r,
    SendMessageList_UnmarshalTLB c = Some r /\
    (forall fuel, (depth c <= fuel)%nat ->
                  unmarshalActions_loop fuel c [] = Some r) /\
    (forall actions, r = Ok actions -> (length actions < depth c)%nat).
Proof.
  unfold SendMessageList_UnmarshalTLB.
  destruct (unmarshalActions_loop_enough (depth c) c []) as (r & Hr & Hlen);
    [lia|].
  exists r. split; [exact Hr|]. split.
  - intros fuel Hf. now rewrite unmarshalActions_loop_from.
  - intros actions Ha. exact (Hlen actions Ha).
Qed.

Lemma C10_action_chain_terminates_witness :
  exists r,
    SendMessageList_UnmarshalTLB chain3 = Some r /\
    (forall fuel, (depth chain3 <= fuel)%nat ->
                  unmarshalActions_loop fuel chain3 [] = Some r) /\
    (forall actions, r = Ok actions -> (length actions < depth chain3)%nat).
Proof. exact (C10_action_chain_terminates chain3). Defined.

Lemma depth_pos (c : Cell) : exists d, depth c = S d.
Proof. destruct c. cbn [depth]. eauto. Qed.

(** One action read from a cell with exactly 40 unread bits, after its first
    pending reference was taken. *)
Lemma unmarshalSendMessageAction_40 (c : Cell) :
  BitsAvailableForRead c = 40%nat ->
  let tag := uint_of_bits (firstn 32 (skipn (rCursor c) (bits c))) in
  let mode := uint_of_bits (firstn 8 (skipn (rCursor c + 32) (bits c))) in
  fst (unmarshalSendMessageAction c)
  = if tag =? SendMessageActionMagic then
      match nth_error (refs c) (refCursor c) with
      | Some msg => Ok (mkSendMessageAction mode msg)
      | None => Err ErrNotEnoughRefs
      end
    else Err ErrInvalidMagic.
Proof.
  intros Ha tag mode. unfold unmarshalSendMessageAction.
  unfold ReadUint at 1. unfold bind at 1. unfold bind at 1.
  unfold ReadBits at 1. rewrite Ha. cbn [Nat.ltb Nat.leb].
  unfold ret at 1. fold tag.
  destruct (tag =? SendMessageActionMagic); [|reflexivity].
  unfold ReadUint, bind, ReadBits, BitsAvailableForRead in *.
  cbn [bits rCursor refs refCursor].
  destruct (Nat.ltb_spec (length (bits c) - (rCursor c + 32)) 8) as [H|_];
    [lia|].
  unfold ret, NextRef. cbn [bits rCursor refs refCursor]. fold mode.
  now destruct (nth_error (refs c) (refCursor c)).
Qed.

(** C3: a turn of [SendMessageList.UnmarshalTLB] at cell [c], with [actions]
    decoded so far.  With 0 unread bits it returns [actions].  With exactly 40
    unread bits it takes the first pending reference as the next chain cell,
    reads the 32-bit tag, which must be [0x0ec3c86d], the 8-bit mode and the
    second pending reference as destination, appends the action and goes on
    at the next cell; a missing reference or another tag is an error.  Any
    other count of unread bits is an error. *)
Theorem C3_action_chain_step (c : Cell) (actions : list SendMessageAction) :
  let avail := BitsAvailableForRead c in
  let tag := uint_of_bits (firstn 32 (skipn (rCursor c) (bits c))) in
  let mode := uint_of_bits (firstn 8 (skipn (rCursor c + 32) (bits c))) in
  let first := nth_error (refs c) (refCursor c) in
  let second := nth_error (refs c) (S (refCursor c)) in
  (avail = 0%nat ->
   unmarshalActions_from actions c = Some (Ok actions)) /\
  (avail = 40%nat ->
   forall next msg,
     first = Some next -> tag = 0x0ec3c86d -> second = Some msg ->
     unmarshalActions_from actions c
     = unmarshalActions_from (actions ++ [mkSendMessageAction mode msg]) next)
  /\
  (avail = 40%nat -> first = None ->
   unmarshalActions_from actions c = Some (Err ErrNotEnoughRefs)) /\
  (avail = 40%nat -> first <> None -> tag <> 0x0ec3c86d ->
   unmarshalActions_from actions c = Some (Err ErrInvalidMagic)) /\
  (avail = 40%nat -> first <> None -> tag = 0x0ec3c86d -> second = None ->
   unmarshalActions_from actions c = Some (Err ErrNotEnoughRefs)) /\
  (avail <> 0%nat -> avail <> 40%nat ->
   unmarshalActions_from actions c = Some (Err (ErrUnexpectedBits avail))).
Proof.
  intros avail tag mode first second.
  unfold unmarshalActions_from at 1 2 4 5 6 7.
  destruct (depth_pos c) as [d Hd]. rewrite Hd.
  cbn [unmarshalActions_loop]. fold avail.
  assert (Hstep : avail = 40%nat ->
    forall next, first = Some next ->
      NextRef c = (Ok next,
                   mkCell (bits c) (rCursor c) (refs c) (S (refCursor c))) /\
      (depth next <= d)%nat /\
      fst (unmarshalSendMessageAction
             (mkCell (bits c) (rCursor c) (refs c) (S (refCursor c))))
      = if tag =? SendMessageActionMagic then
          match second with
          | Some msg => Ok (mkSendMessageAction mode msg)
          | None => Err ErrNotEnoughRefs
          end
        else Err ErrInvalidMagic).
  { intros Ha next Hf. split; [|split].
    - unfold NextRef. fold first. now rewrite Hf.
    - assert (depth next < depth c)%nat; [|lia].
      apply depth_ref. eapply nth_error_In. exact Hf.
    - now rewrite unmarshalSendMessageAction_40. }
  assert (Hnone : first = None -> NextRef c = (Err ErrNotEnoughRefs, c)).
  { intros Hf. unfold NextRef. fold first. now rewrite Hf. }
  clearbody avail tag mode first second.
  repeat split.
  - intros ->. reflexivity.
  - intros Ha next msg Hf Ht Hs. rewrite Ha. cbn [Nat.eqb].
    destruct (Hstep Ha next Hf) as (Hn & Hdep & Hact). rewrite Hn.
    destruct (unmarshalSendMessageAction _) as [ra c2].
    cbn [fst] in Hact. rewrite Hact, Ht, Hs.
    change (0x0ec3c86d =? SendMessageActionMagic) with true. cbn iota.
    now apply unmarshalActions_loop_from.
  - intros Ha Hf. rewrite Ha. cbn [Nat.eqb].
    now rewrite (Hnone Hf).
  - intros Ha Hf Ht. rewrite Ha. cbn [Nat.eqb].
    destruct first as [next|] eqn:Hfirst; [|congruence].
    destruct (Hstep Ha next eq_refl) as (Hn & _ & Hact). rewrite Hn.
    destruct (unmarshalSendMessageAction _) as [ra c2].
    cbn [fst] in Hact. rewrite Hact.
    destruct (Z.eqb_spec tag SendMessageActionMagic) as [E|_];
      [now destruct Ht|reflexivity].
  - intros Ha Hf Ht Hs. rewrite Ha. cbn [Nat.eqb].
    destruct first as [next|] eqn:Hfirst; [|congruence].
    destruct (Hstep Ha next eq_refl) as (Hn & _ & Hact). rewrite Hn.
    destruct (unmarshalSendMessageAction _) as [ra c2].
    cbn [fst] in Hact. rewrite Hact, Ht, Hs. reflexivity.
  - intros H0 H40.
    destruct (Nat.eqb_spec avail 0); [contradiction|].
    destruct (Nat.eqb_spec avail 40); [contradiction|]. reflexivity.
Qed.

Lemma C3_action_chain_step_witness :
  unmarshalActions_from [] (chainNode 3 NewCell destC)
  = unmarshalActions_from ([] ++ [mkSendMessageAction 3 destC]) NewCell.
Proof.
  exact (proj1 (proj2 (C3_action_chain_step (chainNode 3 NewCell destC) []))
           eq_refl NewCell destC eq_refl eq_refl eq_refl).
Defined.

(** A chain of three 40-bit nodes and a 0-bit terminal node decodes to its
    three actions in construction order; with 41 bits in a node it fails. *)
Example chain3_decodes :
  SendMessageList_UnmarshalTLB chain3
  = Some (Ok [mkSendMessageAction 1 destA; mkSendMessageAction 2 destB;
              mkSendMessageAction 3 destC]).
Proof. vm_compute. reflexivity. Qed.

Example chain3_41_fails :
  SendMessageList_UnmarshalTLB chain3_41 = Some (Err (ErrUnexpectedBits 41)).
Proof. vm_compute. reflexivity. Qed.

(** ** Dispatch and signature verification *)

Section WalletProperties.
Context `{Ext : Externals}.

Lemma SignedMsgBody_Verify_calls (body : SignedMsgBody) (pk : list Z) :
  ~ In CallMessageV5VerifySignature (snd (SignedMsgBody_Verify body pk)).
Proof.
  unfold SignedMsgBody_Verify.
  destruct (Hash (SignedMessage body)) as [h|e].
  - destruct (ed25519_Verify pk h (SignedSign body)); cbn;
      intros [H|[H|[H|[]]]]; discriminate.
  - cbn. intros [H|[H|[]]]; discriminate.
Qed.

(** C6: [VerifySignature] never calls [MessageV5VerifySignature]; for
    [V5R1] it returns the version-not-supported error with nothing called
    and the message cell untouched; the whole-body verification
    [SignedMsgBody.Verify] is called only for [V3R1], [V3R2], [V4R1],
    [V4R2] and [HighLoadV2R2]. *)
Theorem C6_verify_dispatch (ver : Version) (pk : list Z) (msg : Cell) :
  ~ In CallMessageV5VerifySignature (snd (VerifySignature ver pk msg)) /\
  VerifySignature V5R1 pk msg = ((Err ErrVersionNotSupported, msg), []) /\
  (In CallSignedMsgBodyVerify (snd (VerifySignature ver pk msg)) ->
   In ver wholeBodyVersions).
Proof.
  split; [|split; [reflexivity|]].
  - unfold VerifySignature.
    destruct ver; try (cbn; tauto);
      (destruct (extractSignedMsgBody msg) as [[body|e] msg'];
       [ pose proof (SignedMsgBody_Verify_calls body pk) as Hc;
         destruct (SignedMsgBody_Verify body pk) as [r calls];
         cbn [snd] in *; intros [H|H]; [discriminate|contradiction]
       | cbn; intros [H|[]]; discriminate ]).
  - unfold wholeBodyVersions. destruct ver; cbn; tauto.
Qed.

(** On a cell with fewer than 512 unread bits [MessageV5VerifySignature]
    returns the not-enough-bits error at once: the cell is as it was, nothing
    was read, hashed or compared. *)
Lemma MessageV5VerifySignature_short (msgBody : Cell) (pk : list Z) :
  (BitsAvailableForRead msgBody < 512)%nat ->
  MessageV5VerifySignature msgBody pk
  = ((Err ErrNotEnoughBitsInCell, msgBody), [CallMessageV5VerifySignature]).
Proof.
  intros H. unfold MessageV5VerifySignature.
  destruct (Nat.ltb_spec (BitsAvailableForRead msgBody) 512) as [_|H'];
    [reflexivity|lia].
Qed.

(** C8: for a wallet generation that the dispatch does not name,
    [ExtractRawMessages] returns the version-not-supported error and the
    message cell as it was: no bit and no reference has been read. *)
Theorem C8_unsupported_version (ver : Version) (msg : Cell) :
  ~ In ver supportedVersions ->
  ExtractRawMessages ver msg = (Err ErrVersionNotSupported, msg).
Proof.
  unfold supportedVersions. intros H.
  destruct ver; try reflexivity; exfalso; apply H; cbn; tauto.
Qed.

End WalletProperties.

Lemma C6_verify_dispatch_witness :
  let msg := mkCell (repeat true 600) 0 [] 0 in
  ~ In CallMessageV5VerifySignature
      (snd (@VerifySignature exampleExternals V3R2 [] msg)) /\
  @VerifySignature exampleExternals V5R1 [] msg
  = ((Err ErrVersionNotSupported, msg), []) /\
  (In CallSignedMsgBodyVerify
      (snd (@VerifySignature exampleExternals V3R2 [] msg)) ->
   In V3R2 wholeBodyVersions).
Proof.
  intros msg. exact (@C6_verify_dispatch exampleExternals V3R2 [] msg).
Defined.

Lemma C8_unsupported_version_witness :
  let msg := mkCell [true; false] 0 [NewCell] 0 in
  @ExtractRawMessages exampleExternals (OtherVersion 7) msg
  = (Err ErrVersionNotSupported, msg).
Proof.
  intros msg.
  apply (@C8_unsupported_version exampleExternals (OtherVersion 7) msg).
  cbn. intros [H|[H|[H|[H|[H|[H|[]]]]]]]; discriminate.
Defined.


(** ** The dictionary: order of the decoded entries *)

Lemma lexlt_app (p a b : list bool) : lexlt a b -> lexlt (p ++ a) (p ++ b).
Proof. induction p as [|x p IH]; cbn; auto. Qed.

Lemma lexlt_uint (a : list bool) :
  forall b, length a = length b -> lexlt a b ->
            uint_of_bits a < uint_of_bits b.
Proof.
  induction a as [|x a IH]; intros [|y b] Hlen Hlt; cbn in Hlt; try tauto.
  cbn [length] in Hlen. injection Hlen as Hlen.
  rewrite !uint_of_bits_cons, <- Hlen.
  pose proof (uint_of_bits_range a) as Ha.
  pose proof (uint_of_bits_range b) as Hb. rewrite <- Hlen in Hb.
  destruct Hlt as [[-> ->]|[-> Hlt]].
  - cbn [Z.b2z]. lia.
  - specialize (IH b Hlen Hlt). lia.
Qed.

Lemma itemsFrom_prefix (t : Hashmap) :
  forall q kv, In kv (itemsFrom q t) -> exists s, fst kv = q ++ s.
Proof.
  induction t as [l v|l a IHa b IHb]; intros q kv Hin; cbn in Hin.
  - destruct Hin as [<-|[]]. cbn. eauto.
  - apply in_app_or in Hin. destruct Hin as [Hin|Hin].
    + destruct (IHa _ _ Hin) as [s Hs]. rewrite Hs, <- !app_assoc. eauto.
    + destruct (IHb _ _ Hin) as [s Hs]. rewrite Hs, <- !app_assoc. eauto.
Qed.

Lemma StronglySorted_app {A} (R : A -> A -> Prop) (l1 l2 : list A) :
  StronglySorted R l1 -> StronglySorted R l2 ->
  (forall x y, In x l1 -> In y l2 -> R x y) ->
  StronglySorted R (l1 ++ l2).
Proof.
  induction 1 as [|x l1 Hs IH Hx]; intros H2 Hc; [exact H2|].
  cbn. constructor.
  - apply IH; [exact H2|]. intros; apply Hc; cbn; auto.
  - apply Forall_app. split; [exact Hx|].
    apply Forall_forall. intros y Hy. apply Hc; cbn; auto.
Qed.

(** The entries under a trie come in strictly ascending key order. *)
Lemma itemsFrom_sorted (t : Hashmap) :
  forall q, StronglySorted keyLt (itemsFrom q t).
Proof.
  induction t as [l v|l a IHa b IHb]; intros q; cbn [itemsFrom].
  - repeat constructor.
  - apply StronglySorted_app; [apply IHa|apply IHb|].
    intros x y Hx Hy.
    destruct (itemsFrom_prefix _ _ _ Hx) as [sx Ex].
    destruct (itemsFrom_prefix _ _ _ Hy) as [sy Ey].
    unfold keyLt. rewrite Ex, Ey, <- !app_assoc.
    apply lexlt_app, lexlt_app. cbn. auto.
Qed.

Lemma bind_Ok {A B} (m : M A) (k : A -> M B) (c c' : Cell) (b : B) :
  bind m k c = (Ok b, c') ->
  exists a c1, m c = (Ok a, c1) /\ k a c1 = (Ok b, c').
Proof.
  unfold bind. destruct (m c) as [[a|e] c1]; [eauto|discriminate].
Qed.

Lemma ReadBits_Ok (n : nat) (c c' : Cell) (bs : list bool) :
  ReadBits n c = (Ok bs, c') ->
  length bs = n /\ (n <= BitsAvailableForRead c)%nat /\
  bs = firstn n (skipn (rCursor c) (bits c)) /\
  c' = mkCell (bits c) (rCursor c + n) (refs c) (refCursor c).
Proof.
  unfold ReadBits.
  destruct (Nat.ltb_spec (BitsAvailableForRead c) n) as [|H]; [discriminate|].
  intros [= <- <-]. repeat split; [|exact H].
  unfold BitsAvailableForRead in H.
  rewrite length_firstn, length_skipn. lia.
Qed.

(** A decoded label is no longer than the bits a key has left. *)
Lemma decodeLabel_length (n : nat) (c c' : Cell) (l : list bool) :
  decodeLabel n c = (Ok l, c') -> (length l <= n)%nat.
Proof.
  unfold decodeLabel. intros H.
  apply bind_Ok in H. destruct H as (b & c1 & _ & H).
  destruct b; cbn [negb] in H.
  - apply bind_Ok in H. destruct H as (b2 & c2 & _ & H).
    destruct b2; cbn [negb] in H.
    + apply bind_Ok in H. destruct H as (v & c3 & _ & H).
      apply bind_Ok in H. destruct H as (len & c4 & _ & H).
      destruct (Z.ltb_spec (Z.of_nat n) len) as [|Hle]; [discriminate|].
      injection H as <- _. rewrite repeat_length. lia.
    + apply bind_Ok in H. destruct H as (len & c3 & _ & H).
      destruct (Z.ltb_spec (Z.of_nat n) len) as [|Hle]; [discriminate|].
      apply ReadBits_Ok in H. lia.
  - apply bind_Ok in H. destruct H as (len & c2 & _ & H).
    destruct (Nat.ltb_spec n len) as [|Hle]; [discriminate|].
    apply ReadBits_Ok in H. lia.
Qed.

(** Every key of a decoded trie has exactly the [n] bits of its width. *)
Lemma unmarshalHashmap_keys (fuel : nat) :
  forall n c t q,
    unmarshalHashmap fuel n c = Ok t ->
    Forall (fun kv => length (fst kv) = (length q + n)%nat) (itemsFrom q t).
Proof.
  induction fuel as [|fuel IH]; intros n c t q H; [discriminate|].
  cbn [unmarshalHashmap] in H.
  destruct (decodeLabel n c) as [[l|e] c1] eqn:Hl; [|discriminate].
  apply decodeLabel_length in Hl.
  destruct (Nat.eqb_spec (n - length l) 0) as [Hz|Hnz].
  - cbn in H. injection H as <-. cbn [itemsFrom].
    constructor; [|constructor]. cbn. rewrite length_app. lia.
  - destruct (NextRef c1) as [[ca|e] c2]; [|discriminate].
    destruct (NextRef c2) as [[cb|e] c3]; [|discriminate].
    destruct (unmarshalHashmap fuel (n - length l - 1) ca) as [a|e] eqn:Ha;
      [|discriminate].
    destruct (unmarshalHashmap fuel (n - length l - 1) cb) as [b|e] eqn:Hb;
      [|discriminate].
    injection H as <-. cbn [itemsFrom]. apply Forall_app. split.
    + eapply Forall_impl; [|exact (IH _ _ _ (q ++ l ++ [false]) Ha)].
      intros kv Hkv. cbn beta in Hkv. rewrite Hkv, !length_app. cbn. lia.
    + eapply Forall_impl; [|exact (IH _ _ _ (q ++ l ++ [true]) Hb)].
      intros kv Hkv. cbn beta in Hkv. rewrite Hkv, !length_app. cbn. lia.
Qed.

Lemma keys_ascending (n : nat) (l : list KV) :
  StronglySorted keyLt l ->
  Forall (fun kv => length (fst kv) = n) l ->
  StronglySorted Z.lt (map (fun kv => uint_of_bits (fst kv)) l).
Proof.
  induction 1 as [|x l Hs IH Hx]; intros Hlen; cbn [map]; constructor.
  - apply IH. now inversion Hlen.
  - apply Forall_map. inversion Hlen as [|? ? Hxn Hln]; subst.
    rewrite Forall_forall in *. intros y Hy.
    apply lexlt_uint; [|now apply Hx].
    now rewrite (Hln y Hy).
Qed.

(** The keys of a decoded dictionary, in the order of [Items], are strictly
    ascending. *)
Lemma Items_ascending (c c' : Cell) (m : option Hashmap) :
  unmarshalDict c = (Ok m, c') ->
  StronglySorted Z.lt (map Key (Items m)).
Proof.
  unfold unmarshalDict. intros H.
  apply bind_Ok in H. destruct H as (marker & c1 & _ & H).
  destruct marker; [|discriminate].
  apply bind_Ok in H. destruct H as (dict & c2 & _ & H).
  destruct (unmarshalHashmap (S KeySize) KeySize dict) as [t|e] eqn:Ht;
    [|discriminate].
  injection H as <- _. cbn [Items]. rewrite map_map. cbn [Key].
  apply (keys_ascending KeySize); [apply itemsFrom_sorted|].
  exact (unmarshalHashmap_keys _ _ _ _ [] Ht).
Qed.

Lemma highloadMessages_entries (items : list HashmapItem) :
  forall acc p,
    highloadMessages items acc = Ok p ->
    exists q, p = acc ++ q /\ Forall2 entryOf items q.
Proof.
  induction items as [|item items IH]; intros acc p H; cbn in H.
  - injection H as <-. exists []. now rewrite app_nil_r.
  - destruct (ReadUint 8 (Value item)) as [[mode|e] cell] eqn:Hm;
      [|discriminate].
    destruct (NextRef cell) as [[msg|e] cell'] eqn:Hr; [|discriminate].
    destruct (IH _ _ H) as (q & -> & Hq).
    exists (mkRawMessage msg (byte_of mode) :: q). split.
    + now rewrite <- app_assoc.
    + constructor; [|exact Hq]. exists mode, cell, cell'. auto.
Qed.

(** C9: when [PayloadHighload.UnmarshalTLB] succeeds, the list it returns
    has exactly one entry per item of the decoded dictionary, each read from
    its item's value cell, in the order of the items, and the keys of the
    items are strictly ascending in that order; the keys themselves are not
    looked at: any gaps stay. *)
Theorem C9_dictionary_order (c c' : Cell) (p : PayloadHighload) :
  PayloadHighload_UnmarshalTLB c = (Ok p, c') ->
  exists m,
    unmarshalDict c = (Ok m, c') /\
    StronglySorted Z.lt (map Key (Items m)) /\
    Forall2 entryOf (Items m) p.
Proof.
  unfold PayloadHighload_UnmarshalTLB. intros H.
  apply bind_Ok in H. destruct H as (m & c1 & Hm & H).
  destruct (highloadMessages (Items m) []) as [raw|e] eqn:Hr; [|discriminate].
  injection H as <- <-.
  exists m. split; [exact Hm|]. split.
  - eapply Items_ascending; eauto.
  - apply highloadMessages_entries in Hr. destruct Hr as (q & -> & Hq).
    exact Hq.
Qed.

Lemma C9_dictionary_order_witness :
  exists m,
    unmarshalDict gapPayload = (Ok m, mkCell [true] 1 [gapDict] 1) /\
    StronglySorted Z.lt (map Key (Items m)) /\
    Forall2 entryOf (Items m)
      [mkRawMessage destA 1; mkRawMessage destB 2; mkRawMessage destC 3].
Proof.
  apply (C9_dictionary_order gapPayload (mkCell [true] 1 [gapDict] 1)
           [mkRawMessage destA 1; mkRawMessage destB 2; mkRawMessage destC 3]).
  vm_compute. reflexivity.
Defined.

(** The dictionary with keys 5, 9 and 300 decodes to its three entries. *)
Example gapPayload_keys :
  option_map (map Key) (match fst (unmarshalDict gapPayload) with
                        | Ok m => Some (Items m)
                        | Err _ => None
                        end)
  = Some [5; 9; 300].
Proof. vm_compute. reflexivity. Qed.

(** ** The dictionary: labels *)

Lemma unread_advance (c : Cell) (bs post : list bool) :
  unread c = bs ++ post -> unread (advance (length bs) c) = post.
Proof.
  unfold unread, advance. cbn [bits rCursor]. intros H.
  rewrite Nat.add_comm, <- skipn_skipn, H, skipn_app, Nat.sub_diag, skipn_all.
  reflexivity.
Qed.

Lemma advance_advance (a b : nat) (c : Cell) :
  advance a (advance b c) = advance (b + a) c.
Proof. unfold advance. cbn. now rewrite Nat.add_assoc. Qed.

Lemma ReadBits_unread (c : Cell) (bs post : list bool) :
  unread c = bs ++ post ->
  ReadBits (length bs) c = (Ok bs, advance (length bs) c).
Proof.
  unfold unread, ReadBits, BitsAvailableForRead, advance. intros H.
  assert (Hlen : length (skipn (rCursor c) (bits c))
                 = (length bs + length post)%nat)
    by now rewrite H, length_app.
  rewrite length_skipn in Hlen.
  destruct (Nat.ltb_spec (length (bits c) - rCursor c) (length bs)); [lia|].
  now rewrite H, firstn_app, Nat.sub_diag, firstn_all, app_nil_r.
Qed.

Lemma ReadBit_unread (c : Cell) (b : bool) (post : list bool) :
  unread c = b :: post -> ReadBit c = (Ok b, advance 1 c).
Proof.
  intros H. unfold ReadBit, bind.
  pose proof (ReadBits_unread c [b] post H) as Hr. cbn [length] in Hr.
  now rewrite Hr.
Qed.

Lemma ReadUint_unread (c : Cell) (v : Z) (n : nat) (post : list bool) :
  unread c = bits_of_uint v n ++ post ->
  0 <= v < 2 ^ Z.of_nat n ->
  ReadUint n c = (Ok v, advance n c).
Proof.
  intros H Hv. unfold ReadUint, bind.
  pose proof (ReadBits_unread c _ post H) as Hr.
  rewrite bits_of_uint_length in Hr. rewrite Hr. unfold ret.
  now rewrite uint_of_bits_of_uint_small.
Qed.

Lemma readUnary_unread (len : nat) :
  forall (fuel : nat) (c : Cell) (post : list bool),
    (len < fuel)%nat ->
    unread c = repeat true len ++ false :: post ->
    readUnary fuel c = (Ok len, advance (S len) c).
Proof.
  induction len as [|len IH]; intros fuel c post Hf H;
    (destruct fuel as [|fuel]; [lia|]); cbn [readUnary repeat app] in *.
  - unfold bind. now rewrite (ReadBit_unread c false post H).
  - unfold bind at 1. rewrite (ReadBit_unread c true _ H).
    unfold bind.
    rewrite (IH fuel (advance 1 c) post); [|lia|].
    + unfold ret. now rewrite advance_advance.
    + exact (unread_advance c [true] _ H).
Qed.

Lemma lenBits_bound (n len : nat) :
  (len <= n)%nat -> 0 <= Z.of_nat len < 2 ^ Z.of_nat (lenBits n).
Proof.
  intros H. split; [lia|]. unfold lenBits.
  rewrite Z2Nat.id by apply Z.log2_up_nonneg.
  destruct (Z.eq_dec (Z.of_nat n + 1) 1) as [E|E].
  - rewrite E. cbn. lia.
  - pose proof (Z.log2_up_spec (Z.of_nat n + 1)) as Hs. lia.
Qed.

Lemma allSame_repeat (l : list bool) :
  allSame l = true -> l = repeat (hd false l) (length l).
Proof.
  destruct l as [|b t]; [discriminate|]. cbn [allSame hd length repeat].
  intros H. f_equal. rewrite forallb_forall in H.
  induction t as [|x t IH]; [reflexivity|]. cbn [length repeat].
  rewrite <- IH by (intros y Hy; apply H; now right).
  f_equal. symmetry. apply Bool.eqb_prop. apply H. now left.
Qed.

Lemma encodeLabel_length (n : nat) (l : list bool) :
  (2 <= length (encodeLabel n l) <= 2 + 2 * length l)%nat.
Proof.
  unfold encodeLabel.
  destruct (allSame l &&
            (3 + lenBits n <? Nat.min (2 + 2 * length l)
                                      (2 + lenBits n + length l))%nat)
    eqn:Hs.
  - apply andb_prop in Hs. destruct Hs as [_ Hs].
    apply Nat.ltb_lt in Hs. cbn [length]. rewrite bits_of_uint_length. lia.
  - destruct (Nat.leb_spec (2 + 2 * length l) (2 + lenBits n + length l)).
    + cbn [length]. rewrite length_app, repeat_length. cbn [length]. lia.
    + cbn [length]. rewrite length_app, bits_of_uint_length. lia.
Qed.

(** A label that was written is read back, and the cell is left after it. *)
Lemma decodeLabel_encodeLabel (n : nat) (l post : list bool) (c : Cell) :
  (length l <= n)%nat ->
  unread c = encodeLabel n l ++ post ->
  decodeLabel n c = (Ok l, advance (length (encodeLabel n l)) c).
Proof.
  intros Hn. unfold encodeLabel, decodeLabel.
  pose proof (lenBits_bound n (length l) Hn) as Hb.
  destruct (allSame l && _) eqn:Hs.
  - apply andb_prop in Hs. destruct Hs as [Hs _].
    apply allSame_repeat in Hs. intros H. cbn [app] in H.
    unfold bind at 1. rewrite (ReadBit_unread c true _ H). cbn [negb].
    pose proof (unread_advance c [true] _ H) as H1. cbn [length] in H1.
    unfold bind at 1. rewrite (ReadBit_unread _ true _ H1). cbn [negb].
    pose proof (unread_advance _ [true] _ H1) as H2. cbn [length] in H2.
    unfold bind at 1. rewrite (ReadBit_unread _ (hd false l) _ H2).
    pose proof (unread_advance _ [hd false l] _ H2) as H3. cbn [length] in H3.
    unfold bind at 1. rewrite (ReadUint_unread _ _ _ _ H3 Hb).
    destruct (Z.ltb_spec (Z.of_nat n) (Z.of_nat (length l))); [lia|].
    unfold ret. rewrite Nat2Z.id, <- Hs, !advance_advance.
    cbn [length]. rewrite bits_of_uint_length. reflexivity.
  - destruct (Nat.leb_spec (2 + 2 * length l) (2 + lenBits n + length l))
      as [Hle|Hgt].
    + intros H. cbn [app] in H.
      unfold bind at 1. rewrite (ReadBit_unread c false _ H). cbn [negb].
      pose proof (unread_advance c [false] _ H) as H1. cbn [length] in H1.
      rewrite <- app_assoc in H1. cbn [app] in H1.
      unfold bind at 1.
      rewrite (readUnary_unread (length l) (S n) _ _ ltac:(lia) H1).
      destruct (Nat.ltb_spec n (length l)); [lia|].
      pose proof (unread_advance _ (repeat true (length l) ++ [false]) _
                    ltac:(rewrite <- app_assoc; exact H1)) as H2.
      rewrite length_app, repeat_length in H2. cbn [length] in H2.
      rewrite Nat.add_1_r in H2.
      rewrite (ReadBits_unread _ l post H2), !advance_advance.
      do 2 f_equal. cbn [length].
      rewrite length_app, repeat_length. cbn [length]. lia.
    + intros H. cbn [app] in H.
      unfold bind at 1. rewrite (ReadBit_unread c true _ H). cbn [negb].
      pose proof (unread_advance c [true] _ H) as H1. cbn [length] in H1.
      unfold bind at 1. rewrite (ReadBit_unread _ false _ H1). cbn [negb].
      pose proof (unread_advance _ [false] _ H1) as H2. cbn [length] in H2.
      rewrite <- app_assoc in H2.
      unfold bind at 1. rewrite (ReadUint_unread _ _ _ _ H2 Hb).
      destruct (Z.ltb_spec (Z.of_nat n) (Z.of_nat (length l))); [lia|].
      pose proof (unread_advance _ (bits_of_uint _ _) _ H2) as H3.
      rewrite bits_of_uint_length in H3.
      rewrite Nat2Z.id, (ReadBits_unread _ l post H3), !advance_advance.
      do 2 f_equal. cbn [length]. rewrite length_app, bits_of_uint_length. lia.
Qed.

(** ** The dictionary: a trie written and read back *)

Lemma addRefs_ok (rs : list Cell) :
  forall (bs : list bool) (r : nat) (rs0 : list Cell) (k : nat),
    (length rs0 + length rs <= CellRefs)%nat ->
    addRefs rs (mkCell bs r rs0 k) = (Ok tt, mkCell bs r (rs0 ++ rs) k).
Proof.
  induction rs as [|x rs IH]; intros bs r rs0 k H; cbn [addRefs].
  - unfold ret. now rewrite app_nil_r.
  - cbn [length] in H. unfold bind, AddRef. cbn [bits rCursor refs refCursor].
    destruct (Nat.leb_spec CellRefs (length rs0)); [lia|].
    rewrite IH by (rewrite length_app; cbn [length]; lia).
    now rewrite <- app_assoc.
Qed.

Lemma WriteBitString_new (bs : list bool) :
  (length bs <= CellBits)%nat ->
  WriteBitString bs NewCell = (Ok tt, mkCell bs 0 [] 0).
Proof.
  intros H. unfold WriteBitString, NewCell. cbn [bits rCursor refs refCursor].
  cbn [length Nat.add app].
  destruct (Nat.ltb_spec CellBits (length bs)); [lia|reflexivity].
Qed.

(** A well-formed trie is written into a fresh cell without error, and
    reading that cell gives the trie back. *)
Lemma unmarshalHashmap_marshalHashmap (t : Hashmap) :
  forall n, wfTrie n t ->
    exists c,
      marshalHashmap n t NewCell = (Ok tt, c) /\
      rCursor c = O /\ refCursor c = O /\ (2 <= length (bits c))%nat /\
      forall fuel, (n < fuel)%nat -> unmarshalHashmap fuel n c = Ok t.
Proof.
  induction t as [l v|l a IHa b IHb]; intros n Hwf; cbn [wfTrie] in Hwf.
  - destruct Hwf as (Hl & Hr & Hk & Hbits & Hrefs).
    destruct v as [vb vr vrs vk]. cbn [bits rCursor refs refCursor] in *.
    subst vr vk.
    pose proof (encodeLabel_length n l) as Hlen.
    exists (mkCell (encodeLabel n l ++ vb) 0 vrs 0).
    split; [|split; [reflexivity|split; [reflexivity|split]]].
    + cbn [marshalHashmap]. unfold bind at 1.
      rewrite WriteBitString_new by lia.
      unfold writeAny, bind. cbn [bits rCursor refs refCursor skipn].
      unfold WriteBitString. cbn [bits rCursor refs refCursor].
      destruct (Nat.ltb_spec CellBits (length (encodeLabel n l) + length vb));
        [lia|].
      now rewrite addRefs_ok by (cbn [length]; lia).
    + cbn [bits]. rewrite length_app. lia.
    + intros fuel Hf. destruct fuel as [|fuel]; [lia|].
      cbn [unmarshalHashmap].
      rewrite (decodeLabel_encodeLabel n l vb) by (reflexivity || lia).
      rewrite Hl, Nat.sub_diag. cbn [Nat.eqb].
      unfold readAny, advance. cbn [bits rCursor refs refCursor skipn Nat.add].
      now rewrite skipn_app, Nat.sub_diag, skipn_all.
  - destruct Hwf as (Hl & Hn & Ha & Hb).
    destruct (IHa _ Ha) as (ca & Hca & _ & _ & _ & Hda).
    destruct (IHb _ Hb) as (cb & Hcb & _ & _ & _ & Hdb).
    pose proof (encodeLabel_length n l) as Hlen.
    exists (mkCell (encodeLabel n l) 0 [ca; cb] 0).
    split; [|split; [reflexivity|split; [reflexivity|split]]].
    + cbn [marshalHashmap]. rewrite Hca, Hcb. unfold bind at 1.
      rewrite WriteBitString_new by lia.
      unfold bind, AddRef. cbn. reflexivity.
    + cbn [bits]. lia.
    + intros fuel Hf. destruct fuel as [|fuel]; [lia|].
      cbn [unmarshalHashmap].
      rewrite (decodeLabel_encodeLabel n l [])
        by (try lia; unfold unread; cbn; now rewrite app_nil_r).
      destruct (Nat.eqb_spec (n - length l) 0) as [|_]; [lia|].
      unfold NextRef, advance. cbn [bits rCursor refs refCursor nth_error].
      rewrite Hda, Hdb by lia. reflexivity.
Qed.

(** ** The dictionary: the trie of a sorted list *)

Lemma lexlt_cons_inv (b : bool) (k k' : list bool) :
  lexlt (b :: k) (b :: k') -> lexlt k k'.
Proof. cbn. intros [[H1 H2]|[_ H]]; [congruence|exact H]. Qed.

Lemma lexlt_true_head (k k' : list bool) :
  lexlt (true :: k) k' -> exists k'', k' = true :: k''.
Proof.
  destruct k' as [|y k']; cbn; [tauto|].
  intros [[H _]|[<- _]]; [discriminate|eauto].
Qed.

Lemma branch_cons_same (b : bool) (k : list bool) (v : Cell) (l : list KV) :
  branch b ((b :: k, v) :: l) = (k, v) :: branch b l.
Proof. unfold branch. cbn. now rewrite Bool.eqb_reflx. Qed.

Lemma branch_cons_other (b : bool) (k : list bool) (v : Cell) (l : list KV) :
  branch (negb b) ((b :: k, v) :: l) = branch (negb b) l.
Proof. unfold branch. cbn. now destruct b. Qed.

Lemma branch_In (b : bool) (l : list KV) (z : KV) :
  Forall (fun kv => fst kv <> []) l ->
  In z (branch b l) -> In (consKey b z) l.
Proof.
  induction 1 as [|[k v] l Hk _ IH]; [intros []|].
  destruct k as [|x k]; [now destruct Hk|].
  destruct (Bool.eqb x b) eqn:E.
  - apply Bool.eqb_prop in E. subst x. rewrite branch_cons_same.
    intros [<-|Hin]; [now left|right; auto].
  - assert (b = negb x) as -> by (destruct x, b; cbn in E |- *; congruence).
    rewrite branch_cons_other. intros Hin. right. auto.
Qed.

Lemma nonempty_keys (n : nat) (l : list KV) :
  Forall (fun kv => length (fst kv) = S n) l ->
  Forall (fun kv => fst kv <> []) l.
Proof.
  apply Forall_impl. intros [k v]. cbn. now destruct k.
Qed.

Lemma branch_length (b : bool) (n : nat) (l : list KV) :
  Forall (fun kv => length (fst kv) = S n) l ->
  Forall (fun kv => length (fst kv) = n) (branch b l).
Proof.
  intros H. apply Forall_forall. intros z Hz.
  apply (branch_In b l z (nonempty_keys n l H)) in Hz.
  rewrite Forall_forall in H. specialize (H _ Hz). cbn in H. lia.
Qed.

Lemma branch_sorted (b : bool) (n : nat) (l : list KV) :
  Forall (fun kv => length (fst kv) = S n) l ->
  StronglySorted keyLt l -> StronglySorted keyLt (branch b l).
Proof.
  intros Hlen Hs. induction Hs as [|[k v] l Hs IH Hx].
  - constructor.
  - inversion Hlen as [|? ? Hk Hl]; subst. specialize (IH Hl).
    destruct k as [|x k]; [discriminate|].
    destruct (Bool.eqb x b) eqn:E.
    + apply Bool.eqb_prop in E. subst x. rewrite branch_cons_same.
      constructor; [exact IH|].
      apply Forall_forall. intros z Hz.
      apply (branch_In b l z (nonempty_keys n l Hl)) in Hz.
      rewrite Forall_forall in Hx. specialize (Hx _ Hz).
      unfold keyLt, consKey in *. cbn [fst] in *.
      now apply lexlt_cons_inv in Hx.
    + assert (b = negb x) as -> by (destruct x, b; cbn in E |- *; congruence).
      now rewrite branch_cons_other.
Qed.

Lemma branch_all_true (l : list KV) :
  Forall (fun kv => exists k, fst kv = true :: k) l ->
  branch false l = [] /\ map (consKey true) (branch true l) = l.
Proof.
  induction 1 as [|[k v] l [k' Hk] _ [IH1 IH2]]; [split; reflexivity|].
  cbn [fst] in Hk. subst k.
  rewrite (branch_cons_other true), (branch_cons_same true). cbn [negb].
  split; [exact IH1|]. cbn [map]. now rewrite IH2.
Qed.

(** A sorted list is its entries with key bit 0 followed by its entries
    with key bit 1. *)
Lemma branch_split (n : nat) (l : list KV) :
  Forall (fun kv => length (fst kv) = S n) l ->
  StronglySorted keyLt l ->
  l = map (consKey false) (branch false l) ++
      map (consKey true) (branch true l).
Proof.
  intros Hlen Hs. induction Hs as [|[k v] l Hs IH Hx]; [reflexivity|].
  inversion Hlen as [|? ? Hk Hl]; subst. specialize (IH Hl).
  destruct k as [|[|] k]; [discriminate| |].
  - assert (Ht : Forall (fun kv => exists k', fst kv = true :: k') l).
    { eapply Forall_impl; [|exact Hx]. intros y Hy.
      exact (lexlt_true_head _ _ Hy). }
    destruct (branch_all_true l Ht) as [E1 E2].
    rewrite (branch_cons_other true), (branch_cons_same true). cbn [negb].
    rewrite E1. cbn [map app]. now rewrite E2.
  - rewrite (branch_cons_same false), (branch_cons_other false). cbn [negb].
    cbn [map app]. unfold consKey at 1. cbn [fst snd]. now rewrite <- IH.
Qed.

Lemma fits_le (n n' : nat) (v : Cell) :
  (n' <= n)%nat -> fits n v -> fits n' v.
Proof. unfold fits. intros Hle (H1 & H2 & H3 & H4). repeat split; lia. Qed.

(** The trie of a non-empty list sorted by key holds the entries of the list
    in the order of the list, and is well formed. *)
Lemma buildMap_sorted (n : nat) :
  forall (label : list bool) (kvs : list KV),
    kvs <> [] ->
    Forall (fun kv => length (fst kv) = n) kvs ->
    StronglySorted keyLt kvs ->
    Forall (fun kv => fits (length label + n) (snd kv)) kvs ->
    exists t,
      buildMap n label kvs = Some t /\
      wfTrie (length label + n) t /\
      forall q, itemsFrom q t
                = map (fun kv => (q ++ label ++ fst kv, snd kv)) kvs.
Proof.
  induction n as [|n IH]; intros label kvs Hne Hlen Hs Hfit.
  - destruct kvs as [|[k v] [|[k' v'] kvs]]; [congruence| |].
    + inversion Hlen as [|? ? Hk _]; subst. cbn [fst] in Hk.
      apply length_zero_iff_nil in Hk. subst k.
      inversion Hfit as [|? ? Hv _]; subst. cbn [snd] in Hv.
      exists (HmLeaf label v). split; [reflexivity|]. split.
      * cbn [wfTrie]. destruct Hv as (H1 & H2 & H3 & H4).
        repeat split; try assumption; lia.
      * intros q. cbn. now rewrite app_nil_r.
    + exfalso. inversion Hlen as [|? ? Hk Hl]; subst.
      inversion Hl as [|? ? Hk' _]; subst. cbn [fst] in *.
      apply length_zero_iff_nil in Hk, Hk'. subst.
      inversion Hs as [|? ? _ Hx]; subst.
      inversion Hx as [|? ? Hlt _]; subst. exact Hlt.
  - pose proof (branch_split n kvs Hlen Hs) as Hsplit.
    pose proof (branch_sorted false n kvs Hlen Hs) as Hs0.
    pose proof (branch_sorted true n kvs Hlen Hs) as Hs1.
    pose proof (branch_length false n kvs Hlen) as Hl0.
    pose proof (branch_length true n kvs Hlen) as Hl1.
    assert (Hf : forall b m, (m <= length label + S n)%nat ->
                   Forall (fun kv => fits m (snd kv)) (branch b kvs)).
    { intros b m Hm. apply Forall_forall. intros z Hz.
      apply (branch_In b kvs z (nonempty_keys n kvs Hlen)) in Hz.
      rewrite Forall_forall in Hfit. specialize (Hfit _ Hz).
      cbn [consKey snd] in Hfit. eapply fits_le; eauto. }
    cbn [buildMap].
    destruct (branch false kvs) as [|z zs] eqn:Ez;
      destruct (branch true kvs) as [|o os] eqn:Eo.
    + cbn in Hsplit. congruence.
    + destruct (IH (label ++ [true]) (o :: os)) as (t & Ht & Hwf & Hit);
        [discriminate|exact Hl1|exact Hs1| |].
      { rewrite <- Eo. apply (Hf true). rewrite length_app. cbn. lia. }
      exists t. split; [exact Ht|]. split.
      * rewrite length_app in Hwf. cbn [length] in Hwf.
        now rewrite <- Nat.add_assoc in Hwf.
      * intros q. rewrite Hit, Hsplit. cbn [map app]. rewrite !map_map.
        cbn [consKey fst snd]. f_equal.
        -- now rewrite <- !app_assoc.
        -- apply map_ext. intros kv. now rewrite <- !app_assoc.
    + destruct (IH (label ++ [false]) (z :: zs)) as (t & Ht & Hwf & Hit);
        [discriminate|exact Hl0|exact Hs0| |].
      { rewrite <- Ez. apply (Hf false). rewrite length_app. cbn. lia. }
      exists t. split; [exact Ht|]. split.
      * rewrite length_app in Hwf. cbn [length] in Hwf.
        now rewrite <- Nat.add_assoc in Hwf.
      * intros q. rewrite Hit, Hsplit. cbn [map app]. rewrite app_nil_r.
        rewrite !map_map. cbn [consKey fst snd]. f_equal.
        -- now rewrite <- !app_assoc.
        -- apply map_ext. intros kv. now rewrite <- !app_assoc.
    + destruct (IH [] (z :: zs)) as (a & Ha & Hwa & Hia);
        [discriminate|exact Hl0|exact Hs0
        |rewrite <- Ez; apply (Hf false); cbn; lia|].
      destruct (IH [] (o :: os)) as (b & Hb & Hwb & Hib);
        [discriminate|exact Hl1|exact Hs1
        |rewrite <- Eo; apply (Hf true); cbn; lia|].
      rewrite Ha, Hb. exists (HmFork label a b).
      split; [reflexivity|]. split.
      * cbn [wfTrie length Nat.add] in *.
        replace (length label + S n - length label - 1)%nat with n by lia.
        assert (Hz : fits (length label + S n) (snd z)).
        { assert (Hin : In z (branch false kvs)) by (rewrite Ez; now left).
          apply (branch_In false kvs z (nonempty_keys n kvs Hlen)) in Hin.
          rewrite Forall_forall in Hfit. exact (Hfit _ Hin). }
        destruct Hz as (_ & _ & Hz & _).
        repeat split; try assumption; lia.
      * intros q. cbn [itemsFrom]. rewrite Hia, Hib.
        rewrite Hsplit, map_app, !map_map.
        cbn [consKey fst snd app]. f_equal; apply map_ext; intros kv;
          now rewrite <- !app_assoc.
Qed.

(** ** The high-volume payload: round trip *)

Lemma lexlt_total (a : list bool) :
  forall b, length a = length b -> lexlt a b \/ a = b \/ lexlt b a.
Proof.
  induction a as [|x a IH]; intros [|y b] Hlen; try discriminate; [auto|].
  injection Hlen as Hlen. cbn [lexlt].
  destruct x, y; try tauto;
    destruct (IH b Hlen) as [H|[->|H]]; auto.
Qed.

Lemma lexlt_bits_of_uint (n : nat) (a b : Z) :
  0 <= a < b -> b < 2 ^ Z.of_nat n ->
  lexlt (bits_of_uint a n) (bits_of_uint b n).
Proof.
  intros Hab Hb.
  destruct (lexlt_total (bits_of_uint a n) (bits_of_uint b n)) as [H|[H|H]].
  - now rewrite !bits_of_uint_length.
  - exact H.
  - apply (f_equal uint_of_bits) in H.
    rewrite !uint_of_bits_of_uint_small in H by lia. lia.
  - apply lexlt_uint in H; [|now rewrite !bits_of_uint_length].
    rewrite !uint_of_bits_of_uint_small in H by lia. lia.
Qed.

Lemma Uint16_small (i : Z) : 0 <= i < 2 ^ 16 -> Uint16 i = i.
Proof. intros H. unfold Uint16. now apply Z.mod_small. Qed.

Lemma entriesOf_keys (p : list RawMessage) :
  forall i, Z.of_nat (i + length p) <= 2 ^ 16 ->
    Forall (fun kv => exists j, (i <= j)%nat /\ Z.of_nat j < 2 ^ 16 /\
                                fst kv = Z.of_nat j) (entriesOf i p).
Proof.
  induction p as [|m p IH]; intros i Hi; cbn [entriesOf]; constructor.
  - exists i. cbn [length] in Hi. split; [lia|]. split; [lia|]. cbn [fst].
    apply Uint16_small. lia.
  - cbn [length] in Hi. eapply Forall_impl; [|apply (IH (S i)); lia].
    intros kv (j & Hj & Hj' & E). exists j. split; [lia|]. split; assumption.
Qed.

(** The entries of a list of at most [2 ^ 16] messages are strictly sorted
    by key. *)
Lemma entriesOf_sorted (p : list RawMessage) :
  forall i, Z.of_nat (i + length p) <= 2 ^ 16 ->
    StronglySorted keyLt (map keyBits (entriesOf i p)).
Proof.
  induction p as [|m p IH]; intros i Hi; cbn [entriesOf map].
  - constructor.
  - cbn [length] in Hi. constructor; [apply IH; lia|].
    apply Forall_map.
    eapply Forall_impl; [|apply (entriesOf_keys p (S i)); lia].
    intros kv (j & Hj & Hj' & E). unfold keyLt, keyBits. cbn [fst]. rewrite E.
    rewrite Uint16_small by lia.
    apply lexlt_bits_of_uint; [lia|exact Hj'].
Qed.

Lemma entriesOf_shape (p : list RawMessage) :
  forall i,
    Forall (fun kv => length (fst kv) = KeySize) (map keyBits (entriesOf i p))
    /\ Forall (fun kv => fits KeySize (snd kv)) (map keyBits (entriesOf i p)).
Proof.
  induction p as [|m p IH]; intros i; cbn [entriesOf map].
  - split; constructor.
  - destruct (IH (S i)) as [H1 H2]. split; constructor; try assumption.
    + unfold keyBits. cbn [fst]. apply bits_of_uint_length.
    + unfold keyBits, fits, valueCell.
      cbn [snd bits rCursor refs refCursor length].
      rewrite bits_of_uint_length. unfold CellBits, CellRefs, KeySize.
      repeat split; lia.
Qed.

Lemma valueCell_new (mode : Z) (dest : Cell) :
  (WriteUint mode 8 ;;; AddRef dest) NewCell = (Ok tt, valueCell mode dest).
Proof. reflexivity. Qed.

Lemma combine_app_same {A B} (a : list A) :
  forall (c : list B) (b : list A) (d : list B),
    length a = length c ->
    combine (a ++ b) (c ++ d) = combine a c ++ combine b d.
Proof.
  induction a as [|x a IH]; intros [|y c] b d Hlen; try discriminate;
    [reflexivity|].
  cbn. f_equal. apply IH. now injection Hlen.
Qed.

Lemma highloadEntries_ok (p : list RawMessage) :
  forall i keys values,
    length keys = length values ->
    exists ks vs,
      highloadEntries i p keys values = Ok (keys ++ ks, values ++ vs) /\
      NewHashmap (keys ++ ks) (values ++ vs)
      = NewHashmap keys values ++
        map (fun kv => mkHashmapItem (fst kv) (snd kv)) (entriesOf i p).
Proof.
  induction p as [|m p IH]; intros i keys values Hlen.
  - exists [], []. cbn. now rewrite !app_nil_r.
  - cbn [highloadEntries]. rewrite valueCell_new.
    destruct (IH (S i) (keys ++ [Uint16 (Z.of_nat i)])
                (values ++ [valueCell (Mode m) (Message m)]))
      as (ks & vs & Hk & Hn).
    { rewrite !length_app. cbn. lia. }
    exists (Uint16 (Z.of_nat i) :: ks), (valueCell (Mode m) (Message m) :: vs).
    rewrite <- !app_assoc in Hk, Hn. cbn [app] in Hk, Hn.
    split; [exact Hk|]. rewrite Hn. unfold NewHashmap.
    rewrite combine_app_same by exact Hlen. rewrite map_app, <- app_assoc.
    reflexivity.
Qed.

Lemma highloadMessages_entriesOf (p : list RawMessage) :
  forall i acc,
    highloadMessages
      (map (fun kv => mkHashmapItem (uint_of_bits (fst kv)) (snd kv))
           (map keyBits (entriesOf i p))) acc
    = Ok (acc ++ map (fun m => mkRawMessage (Message m)
                                  (byte_of (Mode m mod 2 ^ 8))) p).
Proof.
  induction p as [|m p IH]; intros i acc; cbn [entriesOf map].
  - cbn. now rewrite app_nil_r.
  - cbn [highloadMessages Value keyBits snd].
    pose proof (ReadUint_at (Mode m) 8 [] [] [Message m] 0) as Hr.
    rewrite app_nil_r in Hr. cbn [app length Nat.add] in Hr.
    unfold valueCell at 1. rewrite Hr.
    pose proof (NextRef_at (bits_of_uint (Mode m) 8) 8 [] [] (Message m))
      as Hn.
    cbn [app length] in Hn. rewrite Hn, IH, <- app_assoc. reflexivity.
Qed.

(** The dictionary of a non-empty list is written without error, and read
    back it holds the entries of the list in the order of the list. *)
Lemma marshalDict_entries (p : list RawMessage) :
  p <> [] ->
  Z.of_nat (length p) <= 2 ^ 16 ->
  exists t dict,
    marshalDict (map (fun kv => mkHashmapItem (fst kv) (snd kv))
                     (entriesOf 0 p)) NewCell = (Ok tt, dict) /\
    rCursor dict = O /\ refCursor dict = O /\
    (2 <= length (bits dict))%nat /\
    unmarshalHashmap (S KeySize) KeySize dict = Ok t /\
    itemsFrom [] t = map keyBits (entriesOf 0 p).
Proof.
  intros Hne Hlen.
  destruct (entriesOf_shape p 0) as [Hk Hf].
  destruct (buildMap_sorted KeySize [] (map keyBits (entriesOf 0 p)))
    as (t & Ht & Hwf & Hit).
  - destruct p; [congruence|discriminate].
  - exact Hk.
  - apply entriesOf_sorted. cbn [Nat.add]. exact Hlen.
  - exact Hf.
  - cbn [length Nat.add] in Hwf.
    destruct (unmarshalHashmap_marshalHashmap t KeySize Hwf)
      as (dict & Hm & Hr & Hrc & Hb & Hd).
    exists t, dict. repeat split; try assumption.
    + unfold marshalDict.
      destruct p as [|m p]; [congruence|].
      assert (E : map (fun it => (bits_of_uint (Key it) KeySize, Value it))
                    (map (fun kv => mkHashmapItem (fst kv) (snd kv))
                         (entriesOf 0 (m :: p)))
                  = map keyBits (entriesOf 0 (m :: p)))
        by (rewrite map_map; reflexivity).
      cbn [entriesOf map] in E |- *. cbn [entriesOf map] in Ht.
      now rewrite E, Ht.
    + apply Hd. lia.
    + rewrite Hit. cbn [app].
      transitivity (map (fun kv : KV => kv) (map keyBits (entriesOf 0 p)));
        [apply map_ext; now intros [k v]|apply map_id].
Qed.




(** * Further properties of the codecs *)

(** ** The fixed-slot payload on any cell *)

Lemma nth_error_skipn {A} (l : list A) :
  forall k x, nth_error l k = Some x -> skipn k l = x :: skipn (S k) l.
Proof.
  induction l as [|y l IH]; intros [|k] x H; try discriminate.
  - now injection H as ->.
  - cbn [skipn]. apply IH. exact H.
Qed.

Lemma unread_advance_skipn (n : nat) (c : Cell) :
  unread (advance n c) = skipn n (unread c).
Proof.
  unfold unread, advance. cbn [bits rCursor].
  now rewrite skipn_skipn, Nat.add_comm.
Qed.

Lemma ReadUint_avail (n : nat) (c : Cell) :
  (n <= BitsAvailableForRead c)%nat ->
  ReadUint n c = (Ok (uint_of_bits (firstn n (unread c))), advance n c).
Proof.
  intros H. unfold ReadUint, bind, ReadBits.
  destruct (Nat.ltb_spec (BitsAvailableForRead c) n); [lia|reflexivity].
Qed.

Lemma BitsAvailable_advance (n : nat) (c : Cell) :
  BitsAvailableForRead (advance n c) = (BitsAvailableForRead c - n)%nat.
Proof. unfold BitsAvailableForRead, advance. cbn. lia. Qed.

(** The loop on a cell with enough bits for its pending references. *)
Lemma unmarshalV1toV4_loop_reads (r : nat) :
  forall (fuel : nat) (p : list RawMessage) (bs : list bool) (rc : nat)
         (rs : list Cell) (k : nat),
    r = (length rs - k)%nat -> (r < fuel)%nat ->
    (8 * r <= length bs - rc)%nat ->
    unmarshalV1toV4_loop fuel p (mkCell bs rc rs k)
    = Some (Ok (p ++ readEntries (skipn k rs) (skipn rc bs)),
            mkCell bs (rc + 8 * r) rs (k + r)).
Proof.
  induction r as [|r IH]; intros fuel p bs rc rs k Hr Hf Hb;
    (destruct fuel as [|fuel]; [lia|]); cbn [unmarshalV1toV4_loop].
  - rewrite NextRef_end by lia.
    rewrite skipn_all2 by lia. cbn [readEntries].
    now rewrite app_nil_r, Nat.mul_0_r, !Nat.add_0_r.
  - unfold NextRef. cbn [bits rCursor refs refCursor].
    destruct (nth_error rs k) as [x|] eqn:Hn;
      [|apply nth_error_None in Hn; lia].
    rewrite ReadUint_avail
      by (unfold BitsAvailableForRead; cbn [bits rCursor]; lia).
    unfold advance, unread. cbn [bits rCursor refs refCursor].
    rewrite (IH fuel) by lia.
    rewrite (nth_error_skipn rs k x Hn). cbn [readEntries].
    rewrite <- app_assoc. cbn [app].
    rewrite skipn_skipn, (Nat.add_comm 8 rc).
    do 3 f_equal; lia.
Qed.

(** On a cell with fewer than 8 bits per pending reference the loop fails. *)
Lemma unmarshalV1toV4_loop_short (r : nat) :
  forall (fuel : nat) (p : list RawMessage) (bs : list bool) (rc : nat)
         (rs : list Cell) (k : nat),
    r = (length rs - k)%nat -> (r < fuel)%nat ->
    (length bs - rc < 8 * r)%nat ->
    exists c',
      unmarshalV1toV4_loop fuel p (mkCell bs rc rs k)
      = Some (Err ErrNotEnoughBits, c').
Proof.
  induction r as [|r IH]; intros fuel p bs rc rs k Hr Hf Hb; [lia|].
  destruct fuel as [|fuel]; [lia|]. cbn [unmarshalV1toV4_loop].
  unfold NextRef. cbn [bits rCursor refs refCursor].
  destruct (nth_error rs k) as [x|] eqn:Hn;
    [|apply nth_error_None in Hn; lia].
  destruct (Nat.ltb_spec (length bs - rc) 8) as [Hlt|Hge].
  - unfold ReadUint, bind, ReadBits, BitsAvailableForRead.
    cbn [bits rCursor].
    destruct (Nat.ltb_spec (length bs - rc) 8); [eauto|lia].
  - rewrite ReadUint_avail
      by (unfold BitsAvailableForRead; cbn [bits rCursor]; lia).
    unfold advance. cbn [bits rCursor refs refCursor].
    apply (IH fuel); lia.
Qed.

(** [PayloadV1toV4.UnmarshalTLB] on a cell that has at least 8 unread bits
    for each of its pending references: it appends one entry per pending
    reference, the reference with the next unread byte as mode, in order, and
    leaves the cell with these references traversed and these bytes read;
    bits after them stay unread. *)
Theorem V1toV4_unmarshal_reads (p : PayloadV1toV4) (c : Cell) :
  let r := (length (refs c) - refCursor c)%nat in
  (8 * r <= BitsAvailableForRead c)%nat ->
  PayloadV1toV4_UnmarshalTLB p c
  = Some (Ok (p ++ readEntries (skipn (refCursor c) (refs c)) (unread c)),
          mkCell (bits c) (rCursor c + 8 * r) (refs c) (refCursor c + r)).
Proof.
  intros r H. unfold PayloadV1toV4_UnmarshalTLB.
  destruct c as [bs rc rs k]. cbn [bits rCursor refs refCursor] in *.
  unfold BitsAvailableForRead in H. cbn [bits rCursor] in H.
  apply unmarshalV1toV4_loop_reads; subst r; lia.
Qed.

Lemma V1toV4_unmarshal_reads_witness :
  PayloadV1toV4_UnmarshalTLB []
    (mkCell (bits_of_uint 7 8 ++ bits_of_uint 200 8 ++ [true]) 0
            [destA; destB] 0)
  = Some (Ok [mkRawMessage destA 7; mkRawMessage destB 200],
          mkCell (bits_of_uint 7 8 ++ bits_of_uint 200 8 ++ [true]) 16
                 [destA; destB] 2).
Proof.
  apply (V1toV4_unmarshal_reads []
           (mkCell (bits_of_uint 7 8 ++ bits_of_uint 200 8 ++ [true]) 0
                   [destA; destB] 0)).
  vm_compute. lia.
Defined.

(** The two views of the loop agree on what is returned. *)
Lemma unmarshalV1toV4_run_returned (fuel : nat) :
  forall p c,
    unmarshalV1toV4_loop fuel p c
    = option_map returned (unmarshalV1toV4_run fuel p c).
Proof.
  induction fuel as [|fuel IH]; intros p c; [reflexivity|].
  cbn [unmarshalV1toV4_loop unmarshalV1toV4_run].
  destruct (NextRef c) as [[ref|e] c1]; [|reflexivity].
  destruct (ReadUint 8 c1) as [[mode|e] c2]; [apply IH|reflexivity].
Qed.

(** The loop on a cell with [n] whole unread bytes and more than [n] pending
    references: [n] turns append their entries, and the next turn fails. *)
Lemma unmarshalV1toV4_run_short (n : nat) :
  forall (fuel : nat) (p : list RawMessage) (bs : list bool) (rc : nat)
         (rs : list Cell) (k : nat),
    (8 * n <= length bs - rc < 8 * n + 8)%nat ->
    (n < length rs - k)%nat -> (length rs - k < fuel)%nat ->
    unmarshalV1toV4_run fuel p (mkCell bs rc rs k)
    = Some (Some ErrNotEnoughBits,
            p ++ readEntries (firstn n (skipn k rs)) (skipn rc bs),
            mkCell bs (rc + 8 * n) rs (k + n + 1)).
Proof.
  induction n as [|n IH]; intros fuel p bs rc rs k Hb Hr Hf;
    (destruct fuel as [|fuel]; [lia|]); cbn [unmarshalV1toV4_run];
    unfold NextRef; cbn [bits rCursor refs refCursor];
    (destruct (nth_error rs k) as [x|] eqn:Hn;
     [|apply nth_error_None in Hn; lia]).
  - unfold ReadUint, bind, ReadBits, BitsAvailableForRead.
    cbn [bits rCursor].
    destruct (Nat.ltb_spec (length bs - rc) 8); [|lia].
    cbn [firstn readEntries].
    rewrite app_nil_r, Nat.mul_0_r, !Nat.add_0_r, Nat.add_1_r. reflexivity.
  - rewrite ReadUint_avail
      by (unfold BitsAvailableForRead; cbn [bits rCursor]; lia).
    unfold advance, unread. cbn [bits rCursor refs refCursor].
    rewrite (IH fuel) by lia.
    rewrite (nth_error_skipn rs k x Hn). cbn [firstn readEntries].
    rewrite <- app_assoc. cbn [app].
    rewrite skipn_skipn, (Nat.add_comm 8 rc).
    do 3 f_equal; lia.
Qed.

(** [PayloadV1toV4.UnmarshalTLB] on a cell that has [n] whole unread bytes
    and more than [n] pending references: it returns the not-enough-bits
    error, and the list [*p] then holds, after what it held before, the [n]
    entries of the turns that went through; the cell is left with [n + 1]
    references traversed and [n] bytes read. *)
Theorem V1toV4_unmarshal_short (p : PayloadV1toV4) (c : Cell) (n : nat) :
  (8 * n <= BitsAvailableForRead c < 8 * n + 8)%nat ->
  (n < length (refs c) - refCursor c)%nat ->
  let c' := mkCell (bits c) (rCursor c + 8 * n) (refs c)
                   (refCursor c + n + 1) in
  PayloadV1toV4_UnmarshalTLB_run p c
  = Some (Some ErrNotEnoughBits,
          p ++ readEntries (firstn n (skipn (refCursor c) (refs c)))
                           (unread c),
          c') /\
  PayloadV1toV4_UnmarshalTLB p c = Some (Err ErrNotEnoughBits, c').
Proof.
  intros Hb Hr c'.
  destruct c as [bs rc rs k]. cbn [bits rCursor refs refCursor] in *.
  unfold BitsAvailableForRead in Hb. cbn [bits rCursor] in Hb.
  assert (Hrun : unmarshalV1toV4_run (S (length rs - k)) p (mkCell bs rc rs k)
                 = Some (Some ErrNotEnoughBits,
                         p ++ readEntries (firstn n (skipn k rs))
                                          (skipn rc bs), c'))
    by (apply unmarshalV1toV4_run_short; lia).
  split.
  - exact Hrun.
  - unfold PayloadV1toV4_UnmarshalTLB. cbn [refs refCursor].
    now rewrite unmarshalV1toV4_run_returned, Hrun.
Qed.

Lemma V1toV4_unmarshal_short_witness :
  let c := mkCell (bits_of_uint 7 8 ++ [true; false]) 0 [destA; destB] 0 in
  let c' := mkCell (bits_of_uint 7 8 ++ [true; false]) 8 [destA; destB] 2 in
  PayloadV1toV4_UnmarshalTLB_run [] c
  = Some (Some ErrNotEnoughBits, [mkRawMessage destA 7], c') /\
  PayloadV1toV4_UnmarshalTLB [] c = Some (Err ErrNotEnoughBits, c').
Proof.
  intros c c'. apply (V1toV4_unmarshal_short [] c 1).
  - vm_compute. lia.
  - vm_compute. lia.
Defined.

(** [PayloadV1toV4.MarshalTLB] after other content, as in a message whose
    header comes first: the list is appended to the bits and references
    the cell already has, and a reader that stands after that earlier content
    gets the list back. *)
Theorem V1toV4_roundtrip_after_header (p : PayloadV1toV4)
    (hdr : list bool) (rs0 : list Cell) (rc k : nat) :
  (length hdr + 8 * length p <= CellBits)%nat ->
  (length rs0 + length p <= CellRefs)%nat ->
  Forall (fun m => 0 <= Mode m < 256) p ->
  PayloadV1toV4_MarshalTLB p (mkCell hdr rc rs0 k)
  = (Ok tt, mkCell (hdr ++ modeBits p) rc (rs0 ++ map Message p) k) /\
  exists c',
    PayloadV1toV4_UnmarshalTLB []
      (mkCell (hdr ++ modeBits p) (length hdr)
              (rs0 ++ map Message p) (length rs0))
    = Some (Ok p, c').
Proof.
  intros Hb Hr Hmode. split.
  - unfold PayloadV1toV4_MarshalTLB.
    destruct (Nat.ltb_spec 4 (length p)); [unfold CellRefs in Hr; lia|].
    now apply marshalV1toV4_loop_ok.
  - unfold PayloadV1toV4_UnmarshalTLB. cbn [refs refCursor].
    destruct (unmarshalV1toV4_loop_ok p
                (S (length (rs0 ++ map Message p) - length rs0)) [] hdr rs0)
      as [c' Hc].
    + rewrite length_app, length_map. lia.
    + exists c'. rewrite Hc. cbn [app]. now rewrite map_byte_id.
Qed.

Lemma V1toV4_roundtrip_after_header_witness :
  let p := [mkRawMessage destA 3; mkRawMessage destB 64] in
  let hdr := bits_of_uint 698983191 32 in
  PayloadV1toV4_MarshalTLB p (mkCell hdr 0 [destC] 0)
  = (Ok tt, mkCell (hdr ++ modeBits p) 0 ([destC] ++ map Message p) 0) /\
  exists c',
    PayloadV1toV4_UnmarshalTLB []
      (mkCell (hdr ++ modeBits p) (length hdr)
              ([destC] ++ map Message p) (length [destC]))
    = Some (Ok p, c').
Proof.
  intros p hdr.
  apply (V1toV4_roundtrip_after_header p hdr [destC] 0 0).
  - vm_compute. lia.
  - vm_compute. lia.
  - repeat constructor; cbn; lia.
Defined.

Lemma marshalV1toV4_loop_overflow (p : list RawMessage) :
  forall (bs : list bool) (r : nat) (rs : list Cell) (k : nat),
    (length rs <= CellRefs)%nat ->
    (CellRefs - length rs < length p)%nat ->
    (length bs + 8 * length p <= CellBits)%nat ->
    marshalV1toV4_loop p (mkCell bs r rs k)
    = (Err ErrCellRefsOverflow,
       mkCell (bs ++ modeBits (firstn (S (CellRefs - length rs)) p)) r
              (rs ++ map Message (firstn (CellRefs - length rs) p)) k).
Proof.
  induction p as [|m p IH]; intros bs r rs k Hrs Hp Hb;
    cbn [length] in *; [lia|].
  cbn [marshalV1toV4_loop].
  unfold bind at 1. unfold WriteUint, WriteBitString.
  cbn [bits rCursor refs refCursor]. rewrite bits_of_uint_length.
  destruct (Nat.ltb_spec CellBits (length bs + 8)); [lia|].
  unfold bind at 1. unfold AddRef. cbn [bits rCursor refs refCursor].
  destruct (Nat.leb_spec CellRefs (length rs)) as [Hfull|Hroom].
  - replace (CellRefs - length rs)%nat with O by lia.
    cbn [firstn map]. unfold modeBits. cbn [map concat].
    now rewrite !app_nil_r.
  - rewrite IH; rewrite ?length_app, ?bits_of_uint_length; cbn [length];
      try lia.
    replace (CellRefs - length rs)%nat
      with (S (CellRefs - (length rs + 1)))%nat by lia.
    cbn [firstn map]. unfold modeBits. cbn [map concat].
    now rewrite <- !app_assoc.
Qed.

(** [PayloadV1toV4.MarshalTLB] into a cell that has too few free reference
    slots for a list of at most 4 entries fails with the reference-overflow
    error after it has written: the entries that had room are in the cell, and
    so is the mode byte of the entry whose reference did not fit. *)
Theorem V1toV4_marshal_overflow_writes (p : PayloadV1toV4) (c : Cell) :
  (length p <= 4)%nat ->
  (length (refs c) <= CellRefs)%nat ->
  (CellRefs - length (refs c) < length p)%nat ->
  (length (bits c) + 8 * length p <= CellBits)%nat ->
  let room := (CellRefs - length (refs c))%nat in
  PayloadV1toV4_MarshalTLB p c
  = (Err ErrCellRefsOverflow,
     mkCell (bits c ++ modeBits (firstn (S room) p)) (rCursor c)
            (refs c ++ map Message (firstn room p)) (refCursor c)).
Proof.
  intros Hlen Hrs Hp Hb room. unfold PayloadV1toV4_MarshalTLB.
  destruct (Nat.ltb_spec 4 (length p)); [lia|].
  destruct c as [bs r rs k]. cbn [bits rCursor refs refCursor] in *.
  now apply marshalV1toV4_loop_overflow.
Qed.

Lemma V1toV4_marshal_overflow_writes_witness :
  PayloadV1toV4_MarshalTLB
    [mkRawMessage destA 1; mkRawMessage destB 2; mkRawMessage destC 3]
    (mkCell [] 0 [NewCell; NewCell] 0)
  = (Err ErrCellRefsOverflow,
     mkCell (bits_of_uint 1 8 ++ bits_of_uint 2 8 ++ bits_of_uint 3 8) 0
            [NewCell; NewCell; destA; destB] 0).
Proof.
  apply (V1toV4_marshal_overflow_writes
           [mkRawMessage destA 1; mkRawMessage destB 2; mkRawMessage destC 3]
           (mkCell [] 0 [NewCell; NewCell] 0)); vm_compute; lia.
Defined.

(** ** Action chains of any length *)

Lemma chainNode_avail (mode : Z) (next dest : Cell) :
  BitsAvailableForRead (chainNode mode next dest) = 40%nat.
Proof.
  unfold BitsAvailableForRead, chainNode. cbn [bits rCursor].
  now rewrite length_app, !bits_of_uint_length.
Qed.

(** One turn of the loop at a well-formed node. *)
Lemma chainNode_step (mode : Z) (next dest : Cell)
    (acc : list SendMessageAction) :
  unmarshalActions_from acc (chainNode mode next dest)
  = unmarshalActions_from
      (acc ++ [mkSendMessageAction (mode mod 2 ^ 8) dest]) next.
Proof.
  unfold unmarshalActions_from at 1.
  destruct (depth_pos (chainNode mode next dest)) as [d Hd]. rewrite Hd.
  cbn [unmarshalActions_loop]. rewrite chainNode_avail. cbn [Nat.eqb].
  assert (Hnext : (depth next <= d)%nat).
  { assert (depth next < depth (chainNode mode next dest))%nat; [|lia].
    apply depth_ref. cbn. auto. }
  change (NextRef (chainNode mode next dest))
    with (Ok next,
          mkCell (bits_of_uint SendMessageActionMagic 32 ++ bits_of_uint mode 8)
                 0 [next; dest] 1).
  cbv beta iota.
  pose proof (unmarshalSendMessageAction_40
                (mkCell (bits_of_uint SendMessageActionMagic 32
                         ++ bits_of_uint mode 8) 0 [next; dest] 1)) as Hact.
  cbn [bits rCursor refs refCursor nth_error Nat.add] in Hact.
  rewrite skipn_O in Hact.
  rewrite firstn_app, bits_of_uint_length, Nat.sub_diag in Hact.
  rewrite firstn_all2 in Hact by (rewrite bits_of_uint_length; lia).
  rewrite firstn_O, app_nil_r in Hact.
  rewrite skipn_app, bits_of_uint_length, Nat.sub_diag in Hact.
  rewrite skipn_all2 in Hact by (rewrite bits_of_uint_length; lia).
  rewrite skipn_O in Hact. cbn [app] in Hact.
  rewrite firstn_all2 in Hact by (rewrite bits_of_uint_length; lia).
  rewrite !uint_of_bits_of_uint in Hact.
  change (SendMessageActionMagic mod 2 ^ Z.of_nat 32 =? SendMessageActionMagic)
    with true in Hact.
  specialize (Hact (chainNode_avail mode next dest)).
  destruct (unmarshalSendMessageAction _) as [ra c2].
  cbn [fst] in Hact. subst ra.
  now apply unmarshalActions_loop_from.
Qed.

Lemma chainOnto_from (l : list (Z * Cell)) (tail : Cell) :
  forall acc,
    Forall (fun a => 0 <= fst a < 256) l ->
    unmarshalActions_from acc (chainOnto l tail)
    = unmarshalActions_from (acc ++ map actionOf l) tail.
Proof.
  induction l as [|[mode dest] l IH]; intros acc Hm; cbn [chainOnto fold_right map].
  - now rewrite app_nil_r.
  - inversion Hm as [|? ? Hmode Hl]; subst. cbn [fst snd] in *.
    rewrite chainNode_step. fold (chainOnto l tail). rewrite IH by exact Hl.
    rewrite <- app_assoc. cbn [app]. unfold actionOf at 2. cbn [fst snd].
    change (2 ^ 8) with 256. now rewrite Z.mod_small by exact Hmode.
Qed.

Lemma tail_from (tail : Cell) (acc : list SendMessageAction) :
  unmarshalActions_from acc tail
  = if (BitsAvailableForRead tail =? 0)%nat then Some (Ok acc)
    else if (BitsAvailableForRead tail =? 40)%nat
         then unmarshalActions_from acc tail
         else Some (Err (ErrUnexpectedBits (BitsAvailableForRead tail))).
Proof.
  destruct (BitsAvailableForRead tail =? 0)%nat eqn:E0;
    [|destruct (BitsAvailableForRead tail =? 40)%nat eqn:E40];
    try reflexivity;
    unfold unmarshalActions_from;
    destruct (depth_pos tail) as [d Hd]; rewrite Hd;
    cbn [unmarshalActions_loop]; rewrite E0; [reflexivity|].
  now rewrite E40.
Qed.

(** [SendMessageList.UnmarshalTLB] on a chain of any length: one node per
    (mode, destination) pair, each with the action tag, the mode, the next
    node as first reference and the destination as second, ending in a cell
    with no unread bits.  It returns the actions in the order of the chain.
    What references the ending cell has does not matter. *)
Theorem action_chain_decodes (l : list (Z * Cell)) (tail : Cell) :
  Forall (fun a => 0 <= fst a < 256) l ->
  BitsAvailableForRead tail = 0%nat ->
  SendMessageList_UnmarshalTLB (chainOnto l tail) = Some (Ok (map actionOf l)).
Proof.
  intros Hm Ht. unfold SendMessageList_UnmarshalTLB.
  rewrite chainOnto_from by exact Hm. rewrite tail_from, Ht. reflexivity.
Qed.

Lemma action_chain_decodes_witness :
  SendMessageList_UnmarshalTLB
    (chainOnto [(1, destA); (2, destB); (3, destC); (4, destA); (5, destB)]
               (mkCell [] 0 [destC] 0))
  = Some (Ok (map actionOf
                [(1, destA); (2, destB); (3, destC); (4, destA); (5, destB)])).
Proof.
  apply (action_chain_decodes
           [(1, destA); (2, destB); (3, destC); (4, destA); (5, destB)]
           (mkCell [] 0 [destC] 0)).
  - repeat constructor; cbn; lia.
  - reflexivity.
Defined.

(** [SendMessageList.UnmarshalTLB] on a chain whose well-formed nodes lead
    to a cell with a count of unread bits other than 0 and 40: it fails with
    the unexpected-bits error for that count, however many actions were
    decoded before; no shorter list is returned. *)
Theorem action_chain_bad_node (l : list (Z * Cell)) (bad : Cell) :
  Forall (fun a => 0 <= fst a < 256) l ->
  BitsAvailableForRead bad <> 0%nat ->
  BitsAvailableForRead bad <> 40%nat ->
  SendMessageList_UnmarshalTLB (chainOnto l bad)
  = Some (Err (ErrUnexpectedBits (BitsAvailableForRead bad))).
Proof.
  intros Hm H0 H40. unfold SendMessageList_UnmarshalTLB.
  rewrite chainOnto_from by exact Hm. rewrite tail_from.
  destruct (Nat.eqb_spec (BitsAvailableForRead bad) 0); [contradiction|].
  destruct (Nat.eqb_spec (BitsAvailableForRead bad) 40); [contradiction|].
  reflexivity.
Qed.

Lemma action_chain_bad_node_witness :
  SendMessageList_UnmarshalTLB
    (chainOnto [(1, destA); (2, destB)] (mkCell [true; false; true] 0 [] 0))
  = Some (Err (ErrUnexpectedBits 3)).
Proof.
  apply (action_chain_bad_node [(1, destA); (2, destB)]
           (mkCell [true; false; true] 0 [] 0)).
  - repeat constructor; cbn; lia.
  - cbn. lia.
  - cbn. lia.
Defined.

(** ** What the two verification schemes hash and check *)

Lemma copyRefs_all (post : list Cell) :
  forall (pre : list Cell) (bs : list bool) (r : nat)
         (bs' : list bool) (r' : nat) (rs' : list Cell) (k' : nat),
    (length rs' + length post <= CellRefs)%nat ->
    copyRefs (length post) (mkCell bs r (pre ++ post) (length pre))
             (mkCell bs' r' rs' k')
    = (Ok (mkCell bs' r' (rs' ++ post) k'),
       mkCell bs r (pre ++ post) (length pre + length post)).
Proof.
  induction post as [|x post IH]; intros pre bs r bs' r' rs' k' H;
    cbn [copyRefs length] in *.
  - now rewrite !app_nil_r, Nat.add_0_r.
  - rewrite NextRef_at. unfold AddRef. cbn [bits rCursor refs refCursor].
    destruct (Nat.leb_spec CellRefs (length rs')); [lia|].
    specialize (IH (pre ++ [x]) bs r bs' r' (rs' ++ [x]) k').
    rewrite !length_app, <- !app_assoc in IH. cbn [length app] in IH.
    rewrite !Nat.add_1_r in IH. rewrite IH by lia.
    do 2 f_equal. lia.
Qed.

Section VerificationProperties.
Context `{Ext : Externals}.

(** [MessageV5VerifySignature] past its guard: the last 512 bits are checked
    against the hash of the cell without them. *)
Lemma MessageV5VerifySignature_checked (c : Cell) (body signature : list bool)
    (pk : list Z) :
  bits c = body ++ signature -> rCursor c = O -> refCursor c = O ->
  length signature = 512%nat ->
  (length body <= CellBits)%nat ->
  (length (refs c) <= CellRefs)%nat ->
  fst (fst (MessageV5VerifySignature c pk))
  = checked pk (mkCell body 0 (refs c) 0) signature.
Proof.
  destruct c as [bs rc rs k]. cbn [bits rCursor refs refCursor].
  intros -> -> -> Hs Hb Hr. unfold MessageV5VerifySignature, checked.
  assert (Ha : BitsAvailableForRead (mkCell (body ++ signature) 0 rs 0)
               = (length body + 512)%nat).
  { unfold BitsAvailableForRead. cbn [bits rCursor].
    rewrite length_app. lia. }
  rewrite Ha.
  destruct (Nat.ltb_spec (length body + 512) 512) as [|_]; [lia|].
  replace (length body + 512 - 512)%nat with (length body) by lia.
  rewrite (ReadBits_unread (mkCell (body ++ signature) 0 rs 0) body signature)
    by reflexivity.
  pose proof (ReadBits_unread
                (advance (length body) (mkCell (body ++ signature) 0 rs 0))
                signature []) as Hsig.
  rewrite Hs in Hsig. rewrite Hsig.
  2:{ rewrite app_nil_r.
      exact (unread_advance (mkCell (body ++ signature) 0 rs 0) body signature
               eq_refl). }
  rewrite WriteBitString_new by exact Hb.
  unfold advance, RefsSize. cbn [bits rCursor refs refCursor Nat.add].
  pose proof (copyRefs_all rs [] (body ++ signature) (length body + 512)
                body 0 [] 0) as Hc.
  cbn [app length Nat.add] in Hc. rewrite Hc by exact Hr.
  destruct (Hash (mkCell body 0 rs 0)) as [hash|e]; [|reflexivity].
  now destruct (ed25519_Verify pk hash signature).
Qed.


(** [MessageV5VerifySignature] on a cell that was not read from, with at
    least 512 bits: the signature checked is the last 512 bits, and the cell
    hashed holds the bits before them and all the references of the cell, in
    order.  The call succeeds exactly when [ed25519.Verify] accepts that hash;
    otherwise it returns the bad-signature error, or the error of the hash. *)
Theorem V5_verify_strips_signature (c : Cell) (body signature : list bool)
    (pk : list Z) :
  bits c = body ++ signature -> rCursor c = O -> refCursor c = O ->
  length signature = 512%nat ->
  (length body <= CellBits)%nat ->
  (length (refs c) <= CellRefs)%nat ->
  fst (fst (MessageV5VerifySignature c pk))
  = checked pk (mkCell body 0 (refs c) 0) signature.
Proof.
  destruct c as [bs rc rs k]. cbn [bits rCursor refs refCursor].
  intros -> -> -> Hs Hb Hr. unfold MessageV5VerifySignature, checked.
  assert (Ha : BitsAvailableForRead (mkCell (body ++ signature) 0 rs 0)
               = (length body + 512)%nat).
  { unfold BitsAvailableForRead. cbn [bits rCursor].
    rewrite length_app. lia. }
  rewrite Ha.
  destruct (Nat.ltb_spec (length body + 512) 512) as [|_]; [lia|].
  replace (length body + 512 - 512)%nat with (length body) by lia.
  rewrite (ReadBits_unread (mkCell (body ++ signature) 0 rs 0) body signature)
    by reflexivity.
  pose proof (ReadBits_unread
                (advance (length body) (mkCell (body ++ signature) 0 rs 0))
                signature []) as Hsig.
  rewrite Hs in Hsig. rewrite Hsig.
  2:{ rewrite app_nil_r.
      exact (unread_advance (mkCell (body ++ signature) 0 rs 0) body signature
               eq_refl). }
  rewrite WriteBitString_new by exact Hb.
  unfold advance, RefsSize. cbn [bits rCursor refs refCursor Nat.add].
  pose proof (copyRefs_all rs [] (body ++ signature) (length body + 512)
                body 0 [] 0) as Hc.
  cbn [app length Nat.add] in Hc. rewrite Hc by exact Hr.
  destruct (Hash (mkCell body 0 rs 0)) as [hash|e]; [|reflexivity].
  now destruct (ed25519_Verify pk hash signature).
Qed.

(** C7, amended: on a cell with fewer than 512 unread bits
    [MessageV5VerifySignature] returns the not-enough-bits error at once: the
    cell is as it was, nothing was read, hashed or compared.  A cell with 512
    bits or more passes that guard, whatever its bits are meant to be: its
    last 512 bits are checked as the signature against the hash of the bits
    before them and the references, and the outcome is that of the check, a
    signature mismatch when the check fails. *)
Theorem C7_signature_guard (msgBody : Cell) (pk : list Z) :
  ((BitsAvailableForRead msgBody < 512)%nat ->
   MessageV5VerifySignature msgBody pk
   = ((Err ErrNotEnoughBitsInCell, msgBody), [CallMessageV5VerifySignature]))
  /\
  (forall body signature : list bool,
      bits msgBody = body ++ signature ->
      rCursor msgBody = O -> refCursor msgBody = O ->
      length signature = 512%nat ->
      (length body <= CellBits)%nat ->
      (length (refs msgBody) <= CellRefs)%nat ->
      fst (fst (MessageV5VerifySignature msgBody pk))
      = checked pk (mkCell body 0 (refs msgBody) 0) signature).
Proof.
  split.
  - apply MessageV5VerifySignature_short.
  - intros body signature. apply MessageV5VerifySignature_checked.
Qed.

Lemma extractSignedMsgBody_reads (msg msg' bodyCell : Cell)
    (signature rest : list bool) :
  unmarshalMessage msg = (Ok bodyCell, msg') ->
  unread bodyCell = signature ++ rest ->
  length signature = 512%nat ->
  extractSignedMsgBody msg
  = (Ok (mkSignedMsgBody signature
           (mkCell rest 0 (skipn (refCursor bodyCell) (refs bodyCell)) 0)),
     msg').
Proof.
  intros Hm Hu Hs. unfold extractSignedMsgBody, bind. rewrite Hm.
  unfold lift, on, unmarshalSignedMsgBody, bind.
  pose proof (ReadBits_unread bodyCell signature rest Hu) as Hr.
  rewrite Hs in Hr. rewrite Hr. unfold readAny, ret. cbn [fst].
  pose proof (unread_advance bodyCell signature rest Hu) as Ha.
  rewrite Hs in Ha. unfold unread in Ha. rewrite Ha.
  reflexivity.
Qed.

(** [VerifySignature] for the generations with the signed envelope: the
    signature checked is the first 512 unread bits of the message body, and
    the cell hashed holds everything after them, bits and references.  The
    outcome is the same for all five generations. *)
Theorem whole_body_verification (ver : Version) (pk : list Z)
    (msg msg' bodyCell : Cell) (signature rest : list bool) :
  In ver wholeBodyVersions ->
  unmarshalMessage msg = (Ok bodyCell, msg') ->
  unread bodyCell = signature ++ rest ->
  length signature = 512%nat ->
  fst (VerifySignature ver pk msg)
  = (checked pk
       (mkCell rest 0 (skipn (refCursor bodyCell) (refs bodyCell)) 0)
       signature,
     msg').
Proof.
  intros Hv Hm Hu Hs.
  pose proof (extractSignedMsgBody_reads _ _ _ _ _ Hm Hu Hs) as He.
  unfold wholeBodyVersions in Hv.
  assert (Hgo : VerifySignature ver pk msg
                = match extractSignedMsgBody msg with
                  | (Err e, m) => ((Err e, m), [CallExtractSignedMsgBody])
                  | (Ok b, m) =>
                      let (r, calls) := SignedMsgBody_Verify b pk in
                      ((r, m), CallExtractSignedMsgBody :: calls)
                  end).
  { destruct Hv as [<-|[<-|[<-|[<-|[<-|[]]]]]]; reflexivity. }
  rewrite Hgo, He. unfold SignedMsgBody_Verify, checked.
  cbn [SignedMessage SignedSign].
  destruct (Hash _) as [hash|e]; [|reflexivity].
  now destruct (ed25519_Verify pk hash signature).
Qed.

(** [VerifySignature] on a message whose body has fewer than 512 unread
    bits: it fails with the not-enough-bits error of the envelope decoder, and
    neither hashes nor checks a signature. *)
Theorem whole_body_short (ver : Version) (pk : list Z)
    (msg msg' bodyCell : Cell) :
  In ver wholeBodyVersions ->
  unmarshalMessage msg = (Ok bodyCell, msg') ->
  (BitsAvailableForRead bodyCell < 512)%nat ->
  VerifySignature ver pk msg
  = ((Err ErrNotEnoughBits, msg'), [CallExtractSignedMsgBody]).
Proof.
  intros Hv Hm Hb. unfold wholeBodyVersions in Hv.
  assert (He : extractSignedMsgBody msg = (Err ErrNotEnoughBits, msg')).
  { unfold extractSignedMsgBody, bind. rewrite Hm.
    unfold lift, on, unmarshalSignedMsgBody, bind, ReadBits.
    destruct (Nat.ltb_spec (BitsAvailableForRead bodyCell) 512); [|lia].
    reflexivity. }
  destruct Hv as [<-|[<-|[<-|[<-|[<-|[]]]]]];
    unfold VerifySignature; now rewrite He.
Qed.

End VerificationProperties.

(** C7, as the claim states it, fails: a payload of 177 header bits whose
    signature is cut to 511 bits has 688 unread bits, passes the guard, and
    is reported as a signature mismatch after the hash and the check. *)
Lemma C7_counterexample :
  ~ (forall (Ext : Externals) (header signature : list bool)
            (rs : list Cell) (pk : list Z),
        length header = 177%nat -> length signature = 511%nat ->
        fst (fst (MessageV5VerifySignature
                    (mkCell (header ++ signature) 0 rs 0) pk))
        = Err ErrNotEnoughBitsInCell).
Proof.
  intros H.
  specialize (H exampleExternals
                (bits_of_uint 0x7369676e 32 ++ repeat true 145)
                (repeat false 511) [NewCell] [] eq_refl eq_refl).
  vm_compute in H. discriminate.
Qed.

(** That payload, with the stand-in collaborators: the outcome is the
    signature mismatch. *)
Example truncated_signature_mismatch :
  fst (fst (@MessageV5VerifySignature exampleExternals
              (mkCell ((bits_of_uint 0x7369676e 32 ++ repeat true 145)
                       ++ repeat false 511) 0 [NewCell] 0) []))
  = Err ErrBadSignature.
Proof. vm_compute. reflexivity. Qed.

Lemma C7_signature_guard_witness :
  let short := mkCell (repeat true 511) 0 [NewCell] 0 in
  let header := bits_of_uint 0x7369676e 32 ++ repeat true 144 in
  let signature := true :: repeat false 511 in
  let cut := mkCell (header ++ signature) 0 [NewCell] 0 in
  @MessageV5VerifySignature exampleExternals short []
  = ((Err ErrNotEnoughBitsInCell, short), [CallMessageV5VerifySignature]) /\
  fst (fst (@MessageV5VerifySignature exampleExternals cut []))
  = @checked exampleExternals [] (mkCell header 0 [NewCell] 0) signature.
Proof.
  intros short header signature cut. split.
  - apply (proj1 (@C7_signature_guard exampleExternals short [])).
    vm_compute. lia.
  - apply (proj2 (@C7_signature_guard exampleExternals cut [])
             header signature); try reflexivity; vm_compute; lia.
Defined.


Lemma V5_verify_strips_signature_witness :
  let body := bits_of_uint 1936287598 32 ++ [true] in
  let signature := repeat true 512 in
  let c := mkCell (body ++ signature) 0 [chain3] 0 in
  fst (fst (@MessageV5VerifySignature exampleExternals c []))
  = @checked exampleExternals [] (mkCell body 0 (refs c) 0) signature.
Proof.
  intros body signature c.
  apply (@V5_verify_strips_signature exampleExternals c body signature []);
    try reflexivity; vm_compute; lia.
Defined.

Lemma whole_body_verification_witness :
  let signature := repeat false 512 in
  let rest := [false; true; true] in
  let msg := mkCell (signature ++ rest) 0 [destA] 0 in
  fst (@VerifySignature exampleExternals V4R2 [] msg)
  = (@checked exampleExternals [] (mkCell rest 0 [destA] 0) signature,
     mkCell (signature ++ rest) 515 [destA] 1).
Proof.
  intros signature rest msg.
  apply (@whole_body_verification exampleExternals V4R2 [] msg
           (mkCell (signature ++ rest) 515 [destA] 1) msg signature rest).
  - cbn. tauto.
  - vm_compute. reflexivity.
  - reflexivity.
  - reflexivity.
Defined.

Lemma whole_body_short_witness :
  let msg := mkCell (repeat true 511) 0 [destA] 0 in
  @VerifySignature exampleExternals HighLoadV2R2 [] msg
  = ((Err ErrNotEnoughBits, mkCell (repeat true 511) 511 [destA] 1),
     [CallExtractSignedMsgBody]).
Proof.
  intros msg.
  apply (@whole_body_short exampleExternals HighLoadV2R2 [] msg
           (mkCell (repeat true 511) 511 [destA] 1) msg).
  - cbn. tauto.
  - vm_compute. reflexivity.
  - vm_compute. lia.
Defined.

(** ** Whole messages: from the body cell to the raw messages *)

Lemma ReadUint_step (c : Cell) (v : Z) (n : nat) (post : list bool) :
  unread c = bits_of_uint v n ++ post ->
  0 <= v < 2 ^ Z.of_nat n ->
  ReadUint n c = (Ok v, advance n c) /\ unread (advance n c) = post.
Proof.
  intros Hu Hv. split; [now apply (ReadUint_unread c v n post)|].
  pose proof (unread_advance c _ post Hu) as H.
  now rewrite bits_of_uint_length in H.
Qed.

Lemma ReadBits_step (c : Cell) (bs post : list bool) (n : nat) :
  unread c = bs ++ post -> length bs = n ->
  ReadBits n c = (Ok bs, advance n c) /\ unread (advance n c) = post.
Proof.
  intros Hu <-. split; [now apply (ReadBits_unread c bs post)|].
  exact (unread_advance c bs post Hu).
Qed.

Lemma modeBits_length (p : list RawMessage) :
  length (modeBits p) = (8 * length p)%nat.
Proof.
  unfold modeBits. induction p as [|m p IH]; [reflexivity|].
  cbn [map concat length]. rewrite length_app, bits_of_uint_length, IH. lia.
Qed.

Lemma readEntries_modeBits (p : list RawMessage) :
  Forall (fun m => 0 <= Mode m < 256) p ->
  readEntries (map Message p) (modeBits p) = p.
Proof.
  induction 1 as [|m p Hm _ IH]; [reflexivity|].
  unfold modeBits. cbn [map concat readEntries]. fold (modeBits p).
  rewrite firstn_app, bits_of_uint_length, Nat.sub_diag, firstn_O, app_nil_r.
  rewrite firstn_all2 by (rewrite bits_of_uint_length; lia).
  rewrite skipn_app, bits_of_uint_length, Nat.sub_diag, skipn_O.
  rewrite skipn_all2 by (rewrite bits_of_uint_length; lia).
  cbn [app]. rewrite IH, uint_of_bits_of_uint.
  change (2 ^ Z.of_nat 8) with (2 ^ 8). rewrite byte_of_small by exact Hm.
  now destruct m.
Qed.

(** The payload read where the reader stands. *)
Lemma payload_at (c : Cell) (p : list RawMessage) :
  unread c = modeBits p ->
  skipn (refCursor c) (refs c) = map Message p ->
  Forall (fun m => 0 <= Mode m < 256) p ->
  exists c', PayloadV1toV4_UnmarshalTLB [] c = Some (Ok p, c').
Proof.
  intros Hu Hr Hm. destruct c as [bs rc rs k].
  unfold unread in Hu. cbn [bits rCursor refs refCursor] in *.
  assert (Hb : (length bs - rc = 8 * length p)%nat)
    by now rewrite <- length_skipn, Hu, modeBits_length.
  assert (Hk : (length rs - k = length p)%nat)
    by now rewrite <- length_skipn, Hr, length_map.
  unfold PayloadV1toV4_UnmarshalTLB. cbn [refs refCursor].
  rewrite (unmarshalV1toV4_loop_reads (length rs - k)) by lia.
  rewrite Hu, Hr, readEntries_modeBits by exact Hm. cbn [app]. eauto.
Qed.

Section MessageProperties.
Context `{Ext : Externals}.

Lemma unmarshalMessageV3_layout (c : Cell) (sub valid seqno : Z)
    (p : list RawMessage) :
  unread c = bits_of_uint sub 32 ++ bits_of_uint valid 32
             ++ bits_of_uint seqno 32 ++ modeBits p ->
  skipn (refCursor c) (refs c) = map Message p ->
  0 <= sub < 2 ^ 32 -> 0 <= valid < 2 ^ 32 -> 0 <= seqno < 2 ^ 32 ->
  Forall (fun m => 0 <= Mode m < 256) p ->
  on c unmarshalMessageV3 = Ok (mkMessageV3 sub valid seqno p).
Proof.
  intros Hu Hr Hs Hv Hq Hm. unfold on, unmarshalMessageV3.
  destruct (ReadUint_step c sub 32 _ Hu Hs) as [R1 U1].
  destruct (ReadUint_step _ valid 32 _ U1 Hv) as [R2 U2].
  destruct (ReadUint_step _ seqno 32 _ U2 Hq) as [R3 U3].
  unfold bind at 1. rewrite R1. unfold bind at 1. rewrite R2.
  unfold bind at 1. rewrite R3. unfold bind at 1.
  destruct (payload_at _ p U3 Hr Hm) as [c' Hp].
  rewrite Hp. reflexivity.
Qed.

(** [DecodeMessageV3] and [ExtractRawMessages] for V3R1 and V3R2 on a
    message whose body holds a 512-bit signature, the three 32-bit header
    fields, then a mode byte per message, with the destinations as its
    references: the header fields and the list come back, and the raw
    messages are the list in order. *)
Theorem V3_message_decodes (ver : Version) (msg msg' bodyCell : Cell)
    (signature : list bool) (sub valid seqno : Z) (p : list RawMessage) :
  In ver [V3R1; V3R2] ->
  unmarshalMessage msg = (Ok bodyCell, msg') ->
  unread bodyCell
  = signature ++ bits_of_uint sub 32 ++ bits_of_uint valid 32
    ++ bits_of_uint seqno 32 ++ modeBits p ->
  skipn (refCursor bodyCell) (refs bodyCell) = map Message p ->
  length signature = 512%nat ->
  0 <= sub < 2 ^ 32 -> 0 <= valid < 2 ^ 32 -> 0 <= seqno < 2 ^ 32 ->
  Forall (fun m => 0 <= Mode m < 256) p ->
  DecodeMessageV3 msg = (Ok (mkMessageV3 sub valid seqno p), msg') /\
  ExtractRawMessages ver msg = (Ok p, msg').
Proof.
  intros Hver Hmsg Hu Hr Hsig Hs Hv Hq Hm.
  assert (Hd : DecodeMessageV3 msg
               = (Ok (mkMessageV3 sub valid seqno p), msg')).
  { unfold DecodeMessageV3, bind.
    rewrite (extractSignedMsgBody_reads _ _ _ _ _ Hmsg Hu Hsig).
    unfold lift, decodeMessageV3. cbn [SignedMessage]. rewrite Hr.
    now rewrite (unmarshalMessageV3_layout _ sub valid seqno p). }
  split; [exact Hd|].
  destruct Hver as [<-|[<-|[]]]; unfold ExtractRawMessages, bind;
    now rewrite Hd.
Qed.

Lemma unmarshalMessageV4_layout (c : Cell) (sub valid seqno op : Z)
    (p : list RawMessage) :
  unread c = bits_of_uint sub 32 ++ bits_of_uint valid 32
             ++ bits_of_uint seqno 32 ++ bits_of_uint op 8 ++ modeBits p ->
  skipn (refCursor c) (refs c) = map Message p ->
  0 <= sub < 2 ^ 32 -> 0 <= valid < 2 ^ 32 -> 0 <= seqno < 2 ^ 32 ->
  0 <= op < 2 ^ 8 ->
  Forall (fun m => 0 <= Mode m < 256) p ->
  on c unmarshalMessageV4 = Ok (mkMessageV4 sub valid seqno (int8_of op) p).
Proof.
  intros Hu Hr Hs Hv Hq Ho Hm. unfold on, unmarshalMessageV4.
  destruct (ReadUint_step c sub 32 _ Hu Hs) as [R1 U1].
  destruct (ReadUint_step _ valid 32 _ U1 Hv) as [R2 U2].
  destruct (ReadUint_step _ seqno 32 _ U2 Hq) as [R3 U3].
  destruct (ReadUint_step _ op 8 _ U3 Ho) as [R4 U4].
  unfold bind at 1. rewrite R1. unfold bind at 1. rewrite R2.
  unfold bind at 1. rewrite R3. unfold bind at 1. rewrite R4.
  unfold bind at 1.
  destruct (payload_at _ p U4 Hr Hm) as [c' Hp].
  rewrite Hp. reflexivity.
Qed.

(** [DecodeMessageV4] and [ExtractRawMessages] for V4R1 and V4R2 on a
    message whose body holds a 512-bit signature, the three 32-bit header
    fields, the operation byte, then a mode byte per message, with the
    destinations as its references: the operation comes back as a signed
    8-bit number, and the raw messages are the list in order whatever the
    operation is. *)
Theorem V4_message_decodes (ver : Version) (msg msg' bodyCell : Cell)
    (signature : list bool) (sub valid seqno op : Z) (p : list RawMessage) :
  In ver [V4R1; V4R2] ->
  unmarshalMessage msg = (Ok bodyCell, msg') ->
  unread bodyCell
  = signature ++ bits_of_uint sub 32 ++ bits_of_uint valid 32
    ++ bits_of_uint seqno 32 ++ bits_of_uint op 8 ++ modeBits p ->
  skipn (refCursor bodyCell) (refs bodyCell) = map Message p ->
  length signature = 512%nat ->
  0 <= sub < 2 ^ 32 -> 0 <= valid < 2 ^ 32 -> 0 <= seqno < 2 ^ 32 ->
  0 <= op < 2 ^ 8 ->
  Forall (fun m => 0 <= Mode m < 256) p ->
  DecodeMessageV4 msg
  = (Ok (mkMessageV4 sub valid seqno (int8_of op) p), msg') /\
  ExtractRawMessages ver msg = (Ok p, msg').
Proof.
  intros Hver Hmsg Hu Hr Hsig Hs Hv Hq Ho Hm.
  assert (Hd : DecodeMessageV4 msg
               = (Ok (mkMessageV4 sub valid seqno (int8_of op) p), msg')).
  { unfold DecodeMessageV4, bind.
    rewrite (extractSignedMsgBody_reads _ _ _ _ _ Hmsg Hu Hsig).
    unfold lift, decodeMessageV4. cbn [SignedMessage]. rewrite Hr.
    now rewrite (unmarshalMessageV4_layout _ sub valid seqno op p). }
  split; [exact Hd|].
  destruct Hver as [<-|[<-|[]]]; unfold ExtractRawMessages, bind;
    now rewrite Hd.
Qed.

End MessageProperties.

(** ** The high-volume payload in a message *)

(** What [PayloadHighload.MarshalTLB] does to its target cell: it writes the
    marker bit and attaches the dictionary cell of the entries of the list. *)
Lemma highload_marshal_eq (p : PayloadHighload) (dict : Cell) :
  (length p <= 254)%nat ->
  marshalDict (map (fun kv => mkHashmapItem (fst kv) (snd kv))
                   (entriesOf 0 p)) NewCell = (Ok tt, dict) ->
  forall c, PayloadHighload_MarshalTLB p c
            = (WriteBit true ;;; AddRef dict) c.
Proof.
  intros Hlen Hd c. unfold PayloadHighload_MarshalTLB.
  destruct (Nat.ltb_spec 254 (length p)) as [|_]; [lia|].
  destruct (highloadEntries_ok p 0 [] [] eq_refl) as (ks & vs & Hk & Hn).
  cbn [app] in Hk, Hn. rewrite Hk, Hn.
  cbn [NewHashmap combine map app]. now rewrite Hd.
Qed.

(** The dictionary cell is written for every list of at most 254 entries. *)
Lemma highload_dict_written (p : PayloadHighload) :
  (length p <= 254)%nat ->
  exists dict,
    marshalDict (map (fun kv => mkHashmapItem (fst kv) (snd kv))
                     (entriesOf 0 p)) NewCell = (Ok tt, dict).
Proof.
  intros Hlen. destruct p as [|m p].
  - exists NewCell. reflexivity.
  - destruct (marshalDict_entries (m :: p)) as (t & dict & Hm & _);
      [discriminate|cbn [length] in *; lia|].
    eauto.
Qed.

(** The dictionary cell of a list that is not empty, and what
    [PayloadHighload.UnmarshalTLB] makes of it wherever the reader stands. *)
Lemma highload_dict (p : PayloadHighload) :
  p <> [] ->
  (length p <= 254)%nat ->
  Forall (fun m => 0 <= Mode m < 256) p ->
  exists dict,
    marshalDict (map (fun kv => mkHashmapItem (fst kv) (snd kv))
                     (entriesOf 0 p)) NewCell = (Ok tt, dict) /\
    (forall c post,
        unread c = true :: post ->
        nth_error (refs c) (refCursor c) = Some dict ->
        PayloadHighload_UnmarshalTLB c
        = (Ok p, mkCell (bits c) (rCursor c + 1) (refs c)
                        (S (refCursor c)))).
Proof.
  intros Hne Hlen Hmode.
  destruct (marshalDict_entries p)
    as (t & dict & Hm & Hr & Hrc & Hb & Hd & Hit); [exact Hne|lia|].
  exists dict. split; [exact Hm|].
  intros c post Hu Hn. unfold PayloadHighload_UnmarshalTLB, unmarshalDict.
  unfold bind at 1. unfold bind at 1.
  rewrite (ReadBit_unread c true post Hu).
  unfold bind at 1. unfold NextRef at 1, advance.
  cbn [bits rCursor refs refCursor]. rewrite Hn, Hd. unfold ret at 1.
  cbn [Items]. rewrite Hit.
  rewrite (highloadMessages_entriesOf p 0 []). cbn [app].
  unfold ret. now rewrite map_byte_id.
Qed.

(** [PayloadHighload.MarshalTLB] takes one bit and one reference of the
    target cell, however many entries the list has (up to 254): the bit is
    the marker, and the reference is the dictionary cell of the entries of
    the list, each keyed by its position.  From a list that is not empty, a
    reader that stands where the payload was written gets the list back. *)
Theorem highload_marshal_footprint (p : PayloadHighload) (c : Cell) :
  (length p <= 254)%nat ->
  Forall (fun m => 0 <= Mode m < 256) p ->
  (length (bits c) < CellBits)%nat ->
  (length (refs c) < CellRefs)%nat ->
  exists dict,
    marshalDict (map (fun kv => mkHashmapItem (fst kv) (snd kv))
                     (entriesOf 0 p)) NewCell = (Ok tt, dict) /\
    PayloadHighload_MarshalTLB p c
    = (Ok tt, mkCell (bits c ++ [true]) (rCursor c)
                     (refs c ++ [dict]) (refCursor c)) /\
    (p <> [] ->
     PayloadHighload_UnmarshalTLB
       (mkCell (bits c ++ [true]) (length (bits c))
               (refs c ++ [dict]) (length (refs c)))
     = (Ok p, mkCell (bits c ++ [true]) (length (bits c) + 1)
                     (refs c ++ [dict]) (S (length (refs c))))).
Proof.
  intros Hlen Hmode Hb Hr.
  destruct (highload_dict_written p Hlen) as (dict & Hd).
  exists dict. split; [exact Hd|]. split.
  - rewrite (highload_marshal_eq p dict Hlen Hd).
    unfold bind, WriteBit, WriteBitString, AddRef.
    cbn [bits rCursor refs refCursor length].
    destruct (Nat.ltb_spec CellBits (length (bits c) + 1)); [lia|].
    cbn [bits rCursor refs refCursor].
    destruct (Nat.leb_spec CellRefs (length (refs c))); [lia|reflexivity].
  - intros Hne.
    destruct (highload_dict p Hne Hlen Hmode) as (dict' & Hd' & Hrd).
    assert (dict' = dict) as -> by congruence.
    pose proof (Hrd (mkCell (bits c ++ [true]) (length (bits c))
                            (refs c ++ [dict]) (length (refs c))) []) as H.
    cbn [bits rCursor refs refCursor] in H. apply H.
    + unfold unread. cbn [bits rCursor].
      now rewrite skipn_app, Nat.sub_diag, skipn_all.
    + now rewrite nth_error_app2, Nat.sub_diag by lia.
Qed.

Lemma highload_marshal_footprint_witness :
  let p := repeat (mkRawMessage destA 3) 200 in
  let c := mkCell (bits_of_uint 5 32) 0 [destB; destC] 0 in
  exists dict,
    marshalDict (map (fun kv => mkHashmapItem (fst kv) (snd kv))
                     (entriesOf 0 p)) NewCell = (Ok tt, dict) /\
    PayloadHighload_MarshalTLB p c
    = (Ok tt, mkCell (bits c ++ [true]) (rCursor c)
                     (refs c ++ [dict]) (refCursor c)) /\
    (p <> [] ->
     PayloadHighload_UnmarshalTLB
       (mkCell (bits c ++ [true]) (length (bits c))
               (refs c ++ [dict]) (length (refs c)))
     = (Ok p, mkCell (bits c ++ [true]) (length (bits c) + 1)
                     (refs c ++ [dict]) (S (length (refs c))))).
Proof.
  intros p c. apply (highload_marshal_footprint p c).
  - unfold p. rewrite repeat_length. lia.
  - unfold p. apply Forall_forall. intros m Hm.
    apply repeat_spec in Hm. subst m. cbn. lia.
  - vm_compute. lia.
  - vm_compute. lia.
Defined.

(** [PayloadHighload.MarshalTLB] into a cell whose four reference slots are
    taken fails with the reference-overflow error after it has written the
    marker bit: the target cell is one bit longer. *)
Theorem highload_marshal_overflow_writes (p : PayloadHighload) (c : Cell) :
  (length p <= 254)%nat ->
  Forall (fun m => 0 <= Mode m < 256) p ->
  (length (bits c) < CellBits)%nat ->
  (CellRefs <= length (refs c))%nat ->
  PayloadHighload_MarshalTLB p c
  = (Err ErrCellRefsOverflow,
     mkCell (bits c ++ [true]) (rCursor c) (refs c) (refCursor c)).
Proof.
  intros Hlen Hmode Hb Hr.
  destruct (highload_dict_written p Hlen) as (dict & Hd).
  rewrite (highload_marshal_eq p dict Hlen Hd).
  unfold bind, WriteBit, WriteBitString, AddRef.
  cbn [bits rCursor refs refCursor length].
  destruct (Nat.ltb_spec CellBits (length (bits c) + 1)); [lia|].
  cbn [bits rCursor refs refCursor].
  destruct (Nat.leb_spec CellRefs (length (refs c))); [reflexivity|lia].
Qed.

Lemma highload_marshal_overflow_writes_witness :
  let c := mkCell [] 0 [destA; destB; destC; NewCell] 0 in
  PayloadHighload_MarshalTLB [mkRawMessage destA 3] c
  = (Err ErrCellRefsOverflow,
     mkCell [true] 0 [destA; destB; destC; NewCell] 0).
Proof.
  intros c. apply (highload_marshal_overflow_writes [mkRawMessage destA 3] c).
  - cbn. lia.
  - repeat constructor; cbn; lia.
  - vm_compute. lia.
  - vm_compute. lia.
Defined.

Lemma highloadMessages_bad (items : list HashmapItem) :
  forall acc,
    Exists (fun it => (BitsAvailableForRead (Value it) < 8)%nat \/
                      (length (refs (Value it)) <= refCursor (Value it))%nat)
           items ->
    exists e,
      highloadMessages items acc = Err e /\
      (e = ErrFailedToReadMsgMode ErrNotEnoughBits \/
       e = ErrFailedToReadMsg ErrNotEnoughRefs).
Proof.
  induction items as [|item items IH]; intros acc Hex;
    [inversion Hex|].
  cbn [highloadMessages].
  destruct (Nat.ltb_spec (BitsAvailableForRead (Value item)) 8) as [Hlt|Hge].
  - unfold ReadUint, bind, ReadBits.
    destruct (Nat.ltb_spec (BitsAvailableForRead (Value item)) 8); [|lia].
    eauto.
  - rewrite ReadUint_avail by exact Hge.
    unfold NextRef, advance. cbn [bits rCursor refs refCursor].
    destruct (nth_error (refs (Value item)) (refCursor (Value item)))
      as [msg|] eqn:Hn; [|eauto].
    apply IH. inversion Hex as [? ? [Hb|Hr]|]; subst; [lia| |assumption].
    apply nth_error_None in Hr. congruence.
Qed.

Lemma highloadMessages_good (items : list HashmapItem) :
  forall acc,
    Forall (fun it => (8 <= BitsAvailableForRead (Value it))%nat /\
                      (refCursor (Value it) < length (refs (Value it)))%nat)
           items ->
    exists q,
      highloadMessages items acc = Ok (acc ++ q) /\ length q = length items.
Proof.
  induction items as [|item items IH]; intros acc Hall.
  - exists []. cbn. now rewrite app_nil_r.
  - inversion Hall as [|? ? [Hb Hr] Hrest]; subst.
    cbn [highloadMessages]. rewrite ReadUint_avail by exact Hb.
    unfold NextRef, advance. cbn [bits rCursor refs refCursor].
    destruct (nth_error (refs (Value item)) (refCursor (Value item)))
      as [msg|] eqn:Hn; [|apply nth_error_None in Hn; lia].
    destruct (IH (acc ++ [mkRawMessage msg
                            (byte_of (uint_of_bits
                               (firstn 8 (unread (Value item)))))]) Hrest)
      as (q & Hq & Hlen).
    rewrite Hq, <- app_assoc. cbn [app]. eexists. split; [reflexivity|].
    cbn [length]. now rewrite Hlen.
Qed.

(** [PayloadHighload.UnmarshalTLB] on a dictionary that has an item whose
    value cell has fewer than 8 unread bits or no pending reference: it fails
    with the wrapped error of the mode read or of the reference read; the
    items that are well formed are not returned. *)
Theorem highload_unmarshal_bad_value (c c' : Cell) (m : option Hashmap) :
  unmarshalDict c = (Ok m, c') ->
  Exists (fun it => (BitsAvailableForRead (Value it) < 8)%nat \/
                    (length (refs (Value it)) <= refCursor (Value it))%nat)
         (Items m) ->
  exists e,
    PayloadHighload_UnmarshalTLB c = (Err e, c') /\
    (e = ErrFailedToReadMsgMode ErrNotEnoughBits \/
     e = ErrFailedToReadMsg ErrNotEnoughRefs).
Proof.
  intros Hm Hex. unfold PayloadHighload_UnmarshalTLB, bind. rewrite Hm.
  destruct (highloadMessages_bad (Items m) [] Hex) as (e & He & Hk).
  rewrite He. exists e. split; [reflexivity|exact Hk].
Qed.

(** [PayloadHighload.UnmarshalTLB] on a dictionary whose value cells all have
    8 unread bits and a pending reference: it succeeds with as many entries
    as the dictionary has items, whatever the keys are. *)
Theorem highload_unmarshal_good_values (c c' : Cell) (m : option Hashmap) :
  unmarshalDict c = (Ok m, c') ->
  Forall (fun it => (8 <= BitsAvailableForRead (Value it))%nat /\
                    (refCursor (Value it) < length (refs (Value it)))%nat)
         (Items m) ->
  exists p,
    PayloadHighload_UnmarshalTLB c = (Ok p, c') /\
    length p = length (Items m).
Proof.
  intros Hm Hall. unfold PayloadHighload_UnmarshalTLB, bind. rewrite Hm.
  destruct (highloadMessages_good (Items m) [] Hall) as (q & Hq & Hlen).
  rewrite Hq. exists q. split; [reflexivity|exact Hlen].
Qed.

Lemma highload_unmarshal_bad_value_witness :
  exists e,
    PayloadHighload_UnmarshalTLB badPayload
    = (Err e, mkCell [true] 1 [badDict] 1) /\
    (e = ErrFailedToReadMsgMode ErrNotEnoughBits \/
     e = ErrFailedToReadMsg ErrNotEnoughRefs).
Proof.
  eapply (highload_unmarshal_bad_value badPayload).
  - vm_compute. reflexivity.
  - apply Exists_cons_tl, Exists_cons_hd. left. vm_compute. lia.
Defined.

Lemma highload_unmarshal_good_values_witness :
  let m := match fst (unmarshalDict gapPayload) with
           | Ok m => m
           | Err _ => None
           end in
  exists p,
    PayloadHighload_UnmarshalTLB gapPayload
    = (Ok p, mkCell [true] 1 [gapDict] 1) /\
    length p = length (Items m).
Proof.
  intros m.
  apply (highload_unmarshal_good_values gapPayload
           (mkCell [true] 1 [gapDict] 1) m).
  - vm_compute. reflexivity.
  - vm_compute. repeat (apply Forall_cons; [split; lia|]). apply Forall_nil.
Defined.

Section MoreMessageProperties.
Context `{Ext : Externals}.

(** [DecodeHighloadV2Message] and [ExtractRawMessages] for HighLoadV2R2 on a
    message whose body was built by writing a 512-bit signature, the 32-bit
    subwallet and the 64-bit query id, and then a list that is not empty
    with [PayloadHighload.MarshalTLB]: the header fields and the list come
    back, and the raw messages are the list in order. *)
Theorem HighloadV2_message_decodes (msg msg' bodyCell : Cell)
    (signature : list bool) (sub query : Z) (p : PayloadHighload) :
  unmarshalMessage msg = (Ok bodyCell, msg') ->
  PayloadHighload_MarshalTLB p
    (mkCell (signature ++ bits_of_uint sub 32 ++ bits_of_uint query 64)
            0 [] 0)
  = (Ok tt, bodyCell) ->
  length signature = 512%nat ->
  0 <= sub < 2 ^ 32 -> 0 <= query < 2 ^ 64 ->
  p <> [] ->
  (length p <= 254)%nat ->
  Forall (fun m => 0 <= Mode m < 256) p ->
  DecodeHighloadV2Message msg
  = (Ok (mkHighloadV2Message sub query p), msg') /\
  ExtractRawMessages HighLoadV2R2 msg = (Ok p, msg').
Proof.
  intros Hmsg Hmar Hsig Hs Hq Hne Hlen Hmode.
  destruct (highload_dict p Hne Hlen Hmode) as (dict & Hw & Hrd).
  rewrite (highload_marshal_eq p dict Hlen Hw) in Hmar.
  unfold bind, WriteBit, WriteBitString, AddRef in Hmar.
  cbn [bits rCursor refs refCursor length] in Hmar.
  rewrite !length_app, !bits_of_uint_length, Hsig in Hmar.
  cbn in Hmar. injection Hmar as <-.
  assert (Hd : DecodeHighloadV2Message msg
               = (Ok (mkHighloadV2Message sub query p), msg')).
  { unfold DecodeHighloadV2Message, bind.
    rewrite (extractSignedMsgBody_reads _ _ _ signature
               ((bits_of_uint sub 32 ++ bits_of_uint query 64) ++ [true])
               Hmsg);
      [|unfold unread; cbn [bits rCursor skipn]; now rewrite <- !app_assoc
       |exact Hsig].
    unfold lift, decodeHighloadV2Message, on, unmarshalHighloadV2Message.
    cbn [SignedMessage refs refCursor skipn].
    set (c := mkCell ((bits_of_uint sub 32 ++ bits_of_uint query 64) ++ [true])
                     0 [dict] 0).
    assert (Hu : unread c
                 = bits_of_uint sub 32 ++ bits_of_uint query 64 ++ [true])
      by (unfold unread, c; cbn [bits rCursor skipn];
          now rewrite <- app_assoc).
    destruct (ReadUint_step c sub 32 _ Hu Hs) as [R1 U1].
    destruct (ReadUint_step _ query 64 _ U1 Hq) as [R2 U2].
    unfold bind at 1. rewrite R1. unfold bind at 1. rewrite R2.
    unfold bind at 1. rewrite (Hrd _ [] U2 eq_refl). reflexivity. }
  split; [exact Hd|]. unfold ExtractRawMessages, bind. now rewrite Hd.
Qed.

Lemma chainOnto_decodes (l : list (Z * Cell)) (tail : Cell) :
  Forall (fun a => 0 <= fst a < 256) l ->
  BitsAvailableForRead tail = 0%nat ->
  SendMessageList_UnmarshalTLB (chainOnto l tail) = Some (Ok (map actionOf l)).
Proof.
  intros Hm Ht. unfold SendMessageList_UnmarshalTLB.
  rewrite chainOnto_from by exact Hm. rewrite tail_from, Ht. reflexivity.
Qed.

Lemma unmarshalMessageV5Body_layout (c : Cell) (sub signature post : list bool)
    (valid seqno : Z) (op : bool) (l : list (Z * Cell)) (tail : Cell) :
  unread c = sub ++ bits_of_uint valid 32 ++ bits_of_uint seqno 32
             ++ [op] ++ signature ++ post ->
  nth_error (refs c) (refCursor c) = Some (chainOnto l tail) ->
  length sub = 80%nat -> length signature = 512%nat ->
  0 <= valid < 2 ^ 32 -> 0 <= seqno < 2 ^ 32 ->
  Forall (fun a => 0 <= fst a < 256) l ->
  BitsAvailableForRead tail = 0%nat ->
  fst (unmarshalMessageV5Body c)
  = Ok (mkMessageV5Body sub valid seqno op signature (map actionOf l)).
Proof.
  intros Hu Hn Hsub Hsig Hv Hq Hm Ht. unfold unmarshalMessageV5Body.
  destruct (ReadBits_step c sub _ 80 Hu Hsub) as [R1 U1].
  destruct (ReadUint_step _ valid 32 _ U1 Hv) as [R2 U2].
  destruct (ReadUint_step _ seqno 32 _ U2 Hq) as [R3 U3].
  pose proof (ReadBit_unread _ op _ U3) as R4.
  pose proof (unread_advance _ [op] _ U3) as U4. cbn [length] in U4.
  destruct (ReadBits_step _ signature post 512 U4 Hsig) as [R5 U5].
  unfold bind at 1. rewrite R1. unfold bind at 1. rewrite R2.
  unfold bind at 1. rewrite R3. unfold bind at 1. rewrite R4.
  unfold bind at 1. rewrite R5. unfold bind at 1.
  unfold NextRef, advance. cbn [bits rCursor refs refCursor]. rewrite Hn.
  now rewrite (chainOnto_decodes l tail Hm Ht).
Qed.

(** [DecodeMessageV5] and [ExtractRawMessages] for V5R1 on a message whose
    body starts with one of the two tags, then holds the 80-bit wallet id, the
    two 32-bit fields, the flag and the 512-bit signature, and whose next
    reference is a well-formed action chain: the variant is the one of the
    tag, and the raw messages are the destinations and modes of the chain in
    its order.  Bits after the signature are not looked at. *)
Theorem V5_message_decodes (msg msg' bodyCell : Cell) (tag : Z)
    (sub signature post : list bool) (valid seqno : Z) (op : bool)
    (l : list (Z * Cell)) (tail : Cell) :
  unmarshalMessage msg = (Ok bodyCell, msg') ->
  unread bodyCell
  = bits_of_uint tag 32 ++ sub ++ bits_of_uint valid 32
    ++ bits_of_uint seqno 32 ++ [op] ++ signature ++ post ->
  nth_error (refs bodyCell) (refCursor bodyCell) = Some (chainOnto l tail) ->
  tag = 0x73696e74 \/ tag = 0x7369676e ->
  length sub = 80%nat -> length signature = 512%nat ->
  0 <= valid < 2 ^ 32 -> 0 <= seqno < 2 ^ 32 ->
  Forall (fun a => 0 <= fst a < 256) l ->
  BitsAvailableForRead tail = 0%nat ->
  let body := mkMessageV5Body sub valid seqno op signature (map actionOf l) in
  DecodeMessageV5 msg
  = (Ok (if tag =? 0x73696e74 then Sint body else Sign body), msg') /\
  ExtractRawMessages V5R1 msg = (Ok (map rawOf l), msg').
Proof.
  intros Hmsg Hu Hn Htag Hsub Hsig Hv Hq Hm Ht body.
  assert (Hrange : 0 <= tag < 2 ^ Z.of_nat 32)
    by (destruct Htag as [-> | ->]; cbn; lia).
  destruct (ReadUint_step bodyCell tag 32 _ Hu Hrange) as [R1 U1].
  assert (Hb : fst (unmarshalMessageV5Body (advance 32 bodyCell)) = Ok body).
  { now apply (unmarshalMessageV5Body_layout _ sub signature post valid seqno
                 op l tail). }
  assert (Hd : DecodeMessageV5 msg
               = (Ok (if tag =? 0x73696e74 then Sint body else Sign body),
                  msg')).
  { unfold DecodeMessageV5, bind at 1. rewrite Hmsg.
    unfold lift, on, unmarshalMessageV5. unfold bind at 1. rewrite R1.
    destruct Htag as [-> | ->]; cbn [Z.eqb Pos.eqb];
      unfold bind;
      destruct (unmarshalMessageV5Body (advance 32 bodyCell)) as [rb cb];
      cbn [fst] in Hb; subst rb; reflexivity. }
  split; [exact Hd|].
  unfold ExtractRawMessages, bind. rewrite Hd. unfold ret. f_equal. f_equal.
  unfold MessageV5_RawMessages.
  assert (Ha : actionsOf (if tag =? 0x73696e74 then Sint body else Sign body)
               = map actionOf l)
    by (destruct (tag =? 0x73696e74); reflexivity).
  rewrite Ha, map_map. reflexivity.
Qed.

(** [DecodeMessageV5] and [ExtractRawMessages] for V5R1 on a message whose
    body starts with 32 bits that are neither of the two tags: both fail
    with the magic error. *)
Theorem V5_message_unknown_tag (msg msg' bodyCell : Cell) (tag : Z)
    (post : list bool) :
  unmarshalMessage msg = (Ok bodyCell, msg') ->
  unread bodyCell = bits_of_uint tag 32 ++ post ->
  0 <= tag < 2 ^ 32 ->
  tag <> 0x73696e74 -> tag <> 0x7369676e ->
  DecodeMessageV5 msg = (Err ErrInvalidMagic, msg') /\
  ExtractRawMessages V5R1 msg = (Err ErrInvalidMagic, msg').
Proof.
  intros Hmsg Hu Hr H1 H2.
  destruct (ReadUint_step bodyCell tag 32 _ Hu Hr) as [R1 _].
  assert (Hd : DecodeMessageV5 msg = (Err ErrInvalidMagic, msg')).
  { unfold DecodeMessageV5, bind at 1. rewrite Hmsg.
    unfold lift, on, unmarshalMessageV5. unfold bind at 1. rewrite R1.
    destruct (Z.eqb_spec tag 0x73696e74); [contradiction|].
    destruct (Z.eqb_spec tag 0x7369676e); [contradiction|]. reflexivity. }
  split; [exact Hd|]. unfold ExtractRawMessages, bind. now rewrite Hd.
Qed.

End MoreMessageProperties.

Lemma V3_message_decodes_witness :
  let p := [mkRawMessage destA 3; mkRawMessage destB 128] in
  let bs := repeat true 512 ++ bits_of_uint 698983191 32
            ++ bits_of_uint 1700000000 32 ++ bits_of_uint 42 32
            ++ modeBits p in
  let msg := mkCell bs 0 (map Message p) 0 in
  let msg' := mkCell bs 624 (map Message p) 2 in
  @DecodeMessageV3 exampleExternals msg
  = (Ok (mkMessageV3 698983191 1700000000 42 p), msg') /\
  @ExtractRawMessages exampleExternals V3R2 msg = (Ok p, msg').
Proof.
  intros p bs msg msg'.
  apply (@V3_message_decodes exampleExternals V3R2 msg msg' msg
           (repeat true 512) 698983191 1700000000 42 p).
  - cbn. tauto.
  - vm_compute. reflexivity.
  - reflexivity.
  - reflexivity.
  - reflexivity.
  - lia.
  - lia.
  - lia.
  - repeat (apply Forall_cons; [cbn; lia|]). apply Forall_nil.
Defined.

Lemma V4_message_decodes_witness :
  let p := [mkRawMessage destA 3] in
  let bs := repeat false 512 ++ bits_of_uint 698983191 32
            ++ bits_of_uint 1700000000 32 ++ bits_of_uint 7 32
            ++ bits_of_uint 130 8 ++ modeBits p in
  let msg := mkCell bs 0 (map Message p) 0 in
  let msg' := mkCell bs 624 (map Message p) 1 in
  @DecodeMessageV4 exampleExternals msg
  = (Ok (mkMessageV4 698983191 1700000000 7 (int8_of 130) p), msg') /\
  @ExtractRawMessages exampleExternals V4R1 msg = (Ok p, msg').
Proof.
  intros p bs msg msg'.
  apply (@V4_message_decodes exampleExternals V4R1 msg msg' msg
           (repeat false 512) 698983191 1700000000 7 130 p).
  - cbn. tauto.
  - vm_compute. reflexivity.
  - reflexivity.
  - reflexivity.
  - reflexivity.
  - lia.
  - lia.
  - lia.
  - lia.
  - repeat (apply Forall_cons; [cbn; lia|]). apply Forall_nil.
Defined.

Lemma HighloadV2_message_decodes_witness :
  let p := [mkRawMessage destA 3; mkRawMessage destB 1;
            mkRawMessage destC 2] in
  let msg :=
    snd (PayloadHighload_MarshalTLB p
           (mkCell (repeat true 512 ++ bits_of_uint 698983191 32
                    ++ bits_of_uint 123456789012 64) 0 [] 0)) in
  let msg' := snd (@unmarshalMessage exampleExternals msg) in
  @DecodeHighloadV2Message exampleExternals msg
  = (Ok (mkHighloadV2Message 698983191 123456789012 p), msg') /\
  @ExtractRawMessages exampleExternals HighLoadV2R2 msg = (Ok p, msg').
Proof.
  intros p msg msg'.
  apply (@HighloadV2_message_decodes exampleExternals msg msg' msg
           (repeat true 512) 698983191 123456789012 p).
  - vm_compute. reflexivity.
  - vm_compute. reflexivity.
  - reflexivity.
  - lia.
  - lia.
  - discriminate.
  - cbn. lia.
  - repeat (apply Forall_cons; [cbn; lia|]). apply Forall_nil.
Defined.

Lemma V5_message_decodes_witness :
  let l := [(3, destA); (128, destB)] in
  let sub := repeat false 80 in
  let signature := repeat true 512 in
  let bs := bits_of_uint 0x7369676e 32 ++ sub ++ bits_of_uint 1700000000 32
            ++ bits_of_uint 9 32 ++ [true] ++ signature ++ [] in
  let msg := mkCell bs 0 [chainOnto l NewCell] 0 in
  let msg' := mkCell bs 689 [chainOnto l NewCell] 1 in
  let body := mkMessageV5Body sub 1700000000 9 true signature
                (map actionOf l) in
  @DecodeMessageV5 exampleExternals msg
  = (Ok (if 0x7369676e =? 0x73696e74 then Sint body else Sign body), msg') /\
  @ExtractRawMessages exampleExternals V5R1 msg = (Ok (map rawOf l), msg').
Proof.
  intros l sub signature bs msg msg' body.
  apply (@V5_message_decodes exampleExternals msg msg' msg 0x7369676e
           sub signature [] 1700000000 9 true l NewCell).
  - vm_compute. reflexivity.
  - reflexivity.
  - reflexivity.
  - right. reflexivity.
  - reflexivity.
  - reflexivity.
  - lia.
  - lia.
  - repeat (apply Forall_cons; [cbn; lia|]). apply Forall_nil.
  - reflexivity.
Defined.

Lemma V5_message_unknown_tag_witness :
  let bs := bits_of_uint 0x0ec3c86d 32 ++ repeat true 700 in
  let msg := mkCell bs 0 [NewCell] 0 in
  let msg' := mkCell bs 732 [NewCell] 1 in
  @DecodeMessageV5 exampleExternals msg = (Err ErrInvalidMagic, msg') /\
  @ExtractRawMessages exampleExternals V5R1 msg
  = (Err ErrInvalidMagic, msg').
Proof.
  intros bs msg msg'.
  apply (@V5_message_unknown_tag exampleExternals msg msg' msg 0x0ec3c86d
           (repeat true 700)).
  - vm_compute. reflexivity.
  - reflexivity.
  - lia.
  - lia.
  - lia.
Defined.

(** ** Dictionaries with any keys *)

Lemma dictItems_sorted (l : list (Z * (Z * Cell))) :
  StronglySorted Z.lt (map fst l) ->
  Forall (fun e => 0 <= fst e < 2 ^ 16) l ->
  StronglySorted keyLt (map itemBits (dictItems l)).
Proof.
  induction l as [|e l IH]; intros Hs Hr; cbn [dictItems map]; constructor;
    inversion Hs as [|? ? Hs' Hlt]; inversion Hr as [|? ? He Hr']; subst.
  - now apply IH.
  - unfold dictItems. rewrite !Forall_map. rewrite Forall_map in Hlt.
    rewrite Forall_forall in *. intros e' Hin.
    unfold keyLt, itemBits. cbn [fst Key].
    specialize (Hlt e' Hin). specialize (Hr' e' Hin).
    apply lexlt_bits_of_uint; [lia|].
    change (2 ^ Z.of_nat KeySize) with (2 ^ 16). lia.
Qed.

Lemma dictItems_shape (l : list (Z * (Z * Cell))) :
  Forall (fun kv => length (fst kv) = KeySize) (map itemBits (dictItems l)) /\
  Forall (fun kv => fits KeySize (snd kv)) (map itemBits (dictItems l)).
Proof.
  unfold dictItems. rewrite !map_map, !Forall_map.
  split; apply Forall_forall; intros e _; unfold itemBits; cbn [fst snd Key Value].
  - apply bits_of_uint_length.
  - unfold fits, valueCell. cbn [bits rCursor refs refCursor length].
    rewrite bits_of_uint_length. unfold CellBits, CellRefs, KeySize.
    repeat split; lia.
Qed.

Lemma highloadMessages_dictItems (l : list (Z * (Z * Cell))) :
  Forall (fun e => 0 <= fst (snd e) < 256) l ->
  forall acc,
    highloadMessages
      (map (fun kv => mkHashmapItem (uint_of_bits (fst kv)) (snd kv))
           (map itemBits (dictItems l))) acc
    = Ok (acc ++ map (fun e => rawOf (snd e)) l).
Proof.
  induction 1 as [|[k [mode dest]] l Hm _ IH]; intros acc;
    cbn [dictItems map].
  - cbn. now rewrite app_nil_r.
  - cbn [highloadMessages Value itemBits snd fst] in *.
    pose proof (ReadUint_at mode 8 [] [] [dest] 0) as Hr.
    rewrite app_nil_r in Hr. cbn [app length Nat.add] in Hr.
    unfold valueCell at 1. rewrite Hr.
    pose proof (NextRef_at (bits_of_uint mode 8) 8 [] [] dest) as Hn.
    cbn [app length] in Hn. rewrite Hn.
    fold (dictItems l). rewrite IH, <- app_assoc. cbn [app].
    unfold rawOf at 2. cbn [fst snd].
    change (2 ^ Z.of_nat 8) with (2 ^ 8). now rewrite byte_of_small.
Qed.

(** [PayloadHighload.UnmarshalTLB] on a dictionary that holds one or more
    entries under any keys in ascending order, with gaps or not starting at
    0: it succeeds and returns the entries in the order of their keys.  The
    keys are not checked against the positions. *)
Theorem highload_unmarshal_any_keys (l : list (Z * (Z * Cell))) :
  l <> [] ->
  StronglySorted Z.lt (map fst l) ->
  Forall (fun e => 0 <= fst e < 2 ^ 16) l ->
  Forall (fun e => 0 <= fst (snd e) < 256) l ->
  exists dict,
    marshalDict (dictItems l) NewCell = (Ok tt, dict) /\
    PayloadHighload_UnmarshalTLB (mkCell [true] 0 [dict] 0)
    = (Ok (map (fun e => rawOf (snd e)) l), mkCell [true] 1 [dict] 1).
Proof.
  intros Hne Hs Hr Hm.
  destruct l as [|e l]; [congruence|].
  destruct (dictItems_shape (e :: l)) as [Hk Hf].
  destruct (buildMap_sorted KeySize [] (map itemBits (dictItems (e :: l))))
    as (t & Ht & Hwf & Hit);
    [discriminate|exact Hk|now apply dictItems_sorted|exact Hf|].
  cbn [length Nat.add] in Hwf.
  destruct (unmarshalHashmap_marshalHashmap t KeySize Hwf)
    as (dict & Hmar & Hrc & _ & Hb & Hd).
  exists dict. split.
  - unfold marshalDict. cbn [dictItems map].
    change (map (fun it : HashmapItem =>
                   (bits_of_uint (Key it) KeySize, Value it)))
      with (map itemBits).
    change ((bits_of_uint
               (Key (mkHashmapItem (fst e)
                       (valueCell (fst (snd e)) (snd (snd e))))) KeySize,
             Value (mkHashmapItem (fst e)
                      (valueCell (fst (snd e)) (snd (snd e)))))
            :: map itemBits
                 (map (fun e0 : Z * (Z * Cell) =>
                         mkHashmapItem (fst e0)
                           (valueCell (fst (snd e0)) (snd (snd e0)))) l))
      with (map itemBits (dictItems (e :: l))).
    now rewrite Ht.
  - unfold PayloadHighload_UnmarshalTLB, unmarshalDict.
    unfold bind at 1. unfold bind at 1.
    rewrite (ReadBit_unread (mkCell [true] 0 [dict] 0) true [] eq_refl).
    unfold bind at 1. unfold NextRef at 1, advance.
    cbn [bits rCursor refs refCursor nth_error Nat.add].
    rewrite Hd by (unfold KeySize; lia).
    unfold ret at 1. cbn [Items]. rewrite Hit. cbn [app].
    replace (map (fun kv : list bool * Cell => (fst kv, snd kv))
               (map itemBits (dictItems (e :: l))))
      with (map itemBits (dictItems (e :: l)))
      by (rewrite <- (map_id (map itemBits (dictItems (e :: l)))) at 1;
          apply map_ext; now intros [k v]).
    now rewrite (highloadMessages_dictItems (e :: l) Hm []).
Qed.

Lemma highload_unmarshal_any_keys_witness :
  let l := [(7, (1, destA)); (8, (2, destB)); (4096, (3, destC));
            (65535, (4, destA))] in
  exists dict,
    marshalDict (dictItems l) NewCell = (Ok tt, dict) /\
    PayloadHighload_UnmarshalTLB (mkCell [true] 0 [dict] 0)
    = (Ok (map (fun e => rawOf (snd e)) l), mkCell [true] 1 [dict] 1).
Proof.
  intros l. apply (highload_unmarshal_any_keys l).
  - discriminate.
  - repeat (constructor; [|repeat (apply Forall_cons; [cbn; lia|]);
                           apply Forall_nil]).
    constructor.
  - repeat (apply Forall_cons; [cbn; lia|]). apply Forall_nil.
  - repeat (apply Forall_cons; [cbn; lia|]). apply Forall_nil.
Defined.
